(** * NgFormsManager (ngneat/forms-manager): the registration manager

    A shallow embedding of [projects/ngneat/forms-manager/src/lib/forms-manager.ts].
    JavaScript values are a JSON-shaped inductive type, the three [Map]
    registries and [localStorage] are finite maps, the mutable objects the
    manager holds references to (live controls, rxjs subscriptions) live in
    explicit stores, and every method is a computation in a state-and-exception
    monad over the resulting [World]. *)

From Stdlib Require Import Ascii String.
From stdpp Require Import gmap strings list fin_maps.

Local Open Scope string_scope.
Local Open Scope list_scope.

(* ===================================================================== *)
(** ** JavaScript values *)
(* ===================================================================== *)

(** Plain (JSON-shaped) JavaScript values.  An object is the list of its own
    enumerable properties in insertion order.  A number is kept as the
    literal it was written with: the development does no floating-point
    arithmetic.  [undefined] is the [None] of an [option JsValue]. *)
Unset Elimination Schemes.
Inductive JsValue : Type :=
| JNull
| JBool (b : bool)
| JNum (literal : string)
| JStr (s : string)
| JArr (items : list JsValue)
| JObj (props : list (string * JsValue)).
Set Elimination Schemes.

(** The double-quote character. *)
Definition dquote : ascii := Ascii false true false false false true false false.

(** JSON text written with single quotes for readability: every ['] stands
    for a double quote. *)
Definition json_text (s : string) : string :=
  string_of_list_ascii
    (map (fun c => if Ascii.eqb c "'" then dquote else c) (list_ascii_of_string s)).


Definition is_digit (c : ascii) : bool :=
  (48 <=? nat_of_ascii c)%nat && (nat_of_ascii c <=? 57)%nat.

(** A numeric literal denotes zero exactly when its mantissa (everything
    before the exponent) has no digit other than [0]. *)
Fixpoint mantissa_zero (cs : list ascii) : bool :=
  match cs with
  | [] => true
  | c :: r =>
      if (Ascii.eqb c "e" || Ascii.eqb c "E")%bool then true
      else if (is_digit c && negb (Ascii.eqb c "0"))%bool then false
      else mantissa_zero r
  end.

(** JavaScript truthiness ([!!v], [v ? a : b], [if (v)]). *)
Definition truthy (v : JsValue) : bool :=
  match v with
  | JNull => false
  | JBool b => b
  | JNum l => negb (mantissa_zero (list_ascii_of_string l))
  | JStr s => negb (String.eqb s EmptyString)
  | JArr _ | JObj _ => true
  end.

Definition truthy_opt (o : option JsValue) : bool :=
  match o with Some v => truthy v | None => false end.

(** Own-property lookup, assignment and removal on a property list. *)
Fixpoint obj_get (k : string) (ps : list (string * JsValue)) : option JsValue :=
  match ps with
  | [] => None
  | (k', v) :: r => if String.eqb k k' then Some v else obj_get k r
  end.

Fixpoint obj_set (k : string) (v : JsValue) (ps : list (string * JsValue))
  : list (string * JsValue) :=
  match ps with
  | [] => [(k, v)]
  | (k', v') :: r =>
      if String.eqb k k' then (k, v) :: r else (k', v') :: obj_set k v r
  end.

Definition obj_has (k : string) (ps : list (string * JsValue)) : bool :=
  match obj_get k ps with Some _ => true | None => false end.

(** Hereditarily duplicate-free property lists: the shape of every object a
    JavaScript program can build. *)
Fixpoint nodup_keys (ks : list string) : bool :=
  match ks with
  | [] => true
  | k :: r => negb (existsb (String.eqb k) r) && nodup_keys r
  end.


(** Structural comparison of two values. *)
Fixpoint value_eqb (a b : JsValue) {struct a} : bool :=
  match a, b with
  | JNull, JNull => true
  | JBool x, JBool y => Bool.eqb x y
  | JNum x, JNum y => String.eqb x y
  | JStr x, JStr y => String.eqb x y
  | JArr xs, JArr ys =>
      (fix go (xs ys : list JsValue) {struct xs} : bool :=
         match xs, ys with
         | [], [] => true
         | x :: xs', y :: ys' => value_eqb x y && go xs' ys'
         | _, _ => false
         end) xs ys
  | JObj ps, JObj qs =>
      (fix go (ps qs : list (string * JsValue)) {struct ps} : bool :=
         match ps, qs with
         | [], [] => true
         | (k, x) :: ps', (k', y) :: qs' =>
             String.eqb k k' && value_eqb x y && go ps' qs'
         | _, _ => false
         end) ps qs
  | _, _ => false
  end.

(* ===================================================================== *)
(** ** JSON.parse and JSON.stringify *)
(* ===================================================================== *)

(** The platform's JSON codec, written out so that the storage methods can
    be run on concrete blobs.  [JSON_parse] is a recursive-descent parser
    for the JSON grammar (RFC 8259); a [\uXXXX] escape is decoded to the
    UTF-8 bytes of that code unit. *)
Module JSON.

Inductive Parse (A : Type) : Type :=
| Parsed (a : A) (rest : list ascii)
| SyntaxError
| OutOfFuel.
Arguments Parsed {A} a rest.
Arguments SyntaxError {A}.
Arguments OutOfFuel {A}.

Definition is_ws (c : ascii) : bool :=
  let n := nat_of_ascii c in
  ((n =? 32) || (n =? 9) || (n =? 10) || (n =? 13))%nat.

Fixpoint skip_ws (cs : list ascii) : list ascii :=
  match cs with
  | c :: r => if is_ws c then skip_ws r else cs
  | [] => []
  end.

Definition hex_val (c : ascii) : option nat :=
  let n := nat_of_ascii c in
  if ((48 <=? n) && (n <=? 57))%nat then Some (n - 48)
  else if ((65 <=? n) && (n <=? 70))%nat then Some (n - 55)
  else if ((97 <=? n) && (n <=? 102))%nat then Some (n - 87)
  else None.

Definition utf8_of_code_unit (n : nat) : list ascii :=
  if (n <? 128)%nat then [ascii_of_nat n]
  else if (n <? 2048)%nat then
    [ascii_of_nat (192 + n / 64); ascii_of_nat (128 + n mod 64)]
  else
    [ascii_of_nat (224 + n / 4096); ascii_of_nat (128 + (n / 64) mod 64);
     ascii_of_nat (128 + n mod 64)].

Definition simple_escape (c : ascii) : option ascii :=
  if Ascii.eqb c dquote then Some dquote
  else if Ascii.eqb c "\" then Some "\"%char
  else if Ascii.eqb c "/" then Some "/"%char
  else if Ascii.eqb c "b" then Some (ascii_of_nat 8)
  else if Ascii.eqb c "f" then Some (ascii_of_nat 12)
  else if Ascii.eqb c "n" then Some (ascii_of_nat 10)
  else if Ascii.eqb c "r" then Some (ascii_of_nat 13)
  else if Ascii.eqb c "t" then Some (ascii_of_nat 9)
  else None.

(** The characters of a string literal after its opening quote. *)
Fixpoint parse_chars (cs : list ascii) (acc : list ascii) : Parse (list ascii) :=
  match cs with
  | [] => SyntaxError
  | c :: r =>
      if Ascii.eqb c dquote then Parsed (rev acc) r
      else if Ascii.eqb c "\" then
        match r with
        | e :: r1 =>
            if Ascii.eqb e "u" then
              match r1 with
              | h1 :: h2 :: h3 :: h4 :: r2 =>
                  match hex_val h1, hex_val h2, hex_val h3, hex_val h4 with
                  | Some a, Some b, Some c', Some d =>
                      parse_chars r2
                        (rev (utf8_of_code_unit (((a * 16 + b) * 16 + c') * 16 + d))
                         ++ acc)
                  | _, _, _, _ => SyntaxError
                  end
              | _ => SyntaxError
              end
            else
              match simple_escape e with
              | Some x => parse_chars r1 (x :: acc)
              | None => SyntaxError
              end
        | [] => SyntaxError
        end
      else if (nat_of_ascii c <? 32)%nat then SyntaxError
      else parse_chars r (c :: acc)
  end.

Fixpoint span_digits (cs : list ascii) : list ascii * list ascii :=
  match cs with
  | c :: r =>
      if is_digit c then let '(ds, rest) := span_digits r in (c :: ds, rest)
      else ([], cs)
  | [] => ([], [])
  end.

(** [-? (0 | [1-9][0-9]* ) (. [0-9]+)? ([eE] [+-]? [0-9]+)?] *)
Definition parse_number (cs : list ascii) : Parse (list ascii) :=
  let '(sign, r0) :=
    match cs with
    | c :: r => if Ascii.eqb c "-" then ([c], r) else ([], cs)
    | [] => ([], cs)
    end in
  let '(int, r1) := span_digits r0 in
  match int with
  | [] => SyntaxError
  | d :: ds =>
      if (Ascii.eqb d "0" && negb (length ds =? 0)%nat)%bool then SyntaxError
      else
        let frac :=
          match r1 with
          | c :: r =>
              if Ascii.eqb c "." then
                let '(fs, r2) := span_digits r in
                match fs with
                | [] => SyntaxError
                | _ => Parsed (c :: fs) r2
                end
              else Parsed [] r1
          | [] => Parsed [] r1
          end in
        match frac with
        | Parsed fs r2 =>
            match r2 with
            | c :: r =>
                if (Ascii.eqb c "e" || Ascii.eqb c "E")%bool then
                  let '(sg, r3) :=
                    match r with
                    | s :: r' =>
                        if (Ascii.eqb s "+" || Ascii.eqb s "-")%bool
                        then ([s], r') else ([], r)
                    | [] => ([], r)
                    end in
                  let '(es, r4) := span_digits r3 in
                  match es with
                  | [] => SyntaxError
                  | _ => Parsed (sign ++ int ++ fs ++ c :: sg ++ es) r4
                  end
                else Parsed (sign ++ int ++ fs) r2
            | [] => Parsed (sign ++ int ++ fs) r2
            end
        | SyntaxError => SyntaxError
        | OutOfFuel => OutOfFuel
        end
  end.

Fixpoint expect (lit cs : list ascii) : option (list ascii) :=
  match lit, cs with
  | [], _ => Some cs
  | l :: lit', c :: r => if Ascii.eqb l c then expect lit' r else None
  | _ :: _, [] => None
  end.

Fixpoint parse_value (fuel : nat) (cs : list ascii) : Parse JsValue :=
  match fuel with
  | O => OutOfFuel
  | S fuel' =>
      match skip_ws cs with
      | [] => SyntaxError
      | c :: r =>
          if Ascii.eqb c "{" then
            match skip_ws r with
            | c1 :: r1 =>
                if Ascii.eqb c1 "}" then Parsed (JObj []) r1
                else parse_members fuel' (c1 :: r1) []
            | [] => SyntaxError
            end
          else if Ascii.eqb c "[" then
            match skip_ws r with
            | c1 :: r1 =>
                if Ascii.eqb c1 "]" then Parsed (JArr []) r1
                else parse_elements fuel' (c1 :: r1) []
            | [] => SyntaxError
            end
          else if Ascii.eqb c dquote then
            match parse_chars r [] with
            | Parsed s r1 => Parsed (JStr (string_of_list_ascii s)) r1
            | SyntaxError => SyntaxError
            | OutOfFuel => OutOfFuel
            end
          else if (Ascii.eqb c "-" || is_digit c)%bool then
            match parse_number (c :: r) with
            | Parsed l r1 => Parsed (JNum (string_of_list_ascii l)) r1
            | SyntaxError => SyntaxError
            | OutOfFuel => OutOfFuel
            end
          else
            match expect (list_ascii_of_string "true") (c :: r) with
            | Some r1 => Parsed (JBool true) r1
            | None =>
            match expect (list_ascii_of_string "false") (c :: r) with
            | Some r1 => Parsed (JBool false) r1
            | None =>
            match expect (list_ascii_of_string "null") (c :: r) with
            | Some r1 => Parsed JNull r1
            | None => SyntaxError
            end end end
      end
  end

(** [cs] starts (after white space) at a member's key; [acc] holds the
    members read so far.  A repeated key overwrites, as in JavaScript. *)
with parse_members (fuel : nat) (cs : list ascii)
       (acc : list (string * JsValue)) : Parse JsValue :=
  match fuel with
  | O => OutOfFuel
  | S fuel' =>
      match skip_ws cs with
      | q :: r =>
          if Ascii.eqb q dquote then
            match parse_chars r [] with
            | Parsed k r1 =>
                match skip_ws r1 with
                | colon :: r2 =>
                    if Ascii.eqb colon ":" then
                      match parse_value fuel' r2 with
                      | Parsed v r3 =>
                          let acc' := obj_set (string_of_list_ascii k) v acc in
                          match skip_ws r3 with
                          | d :: r4 =>
                              if Ascii.eqb d "," then parse_members fuel' r4 acc'
                              else if Ascii.eqb d "}" then Parsed (JObj acc') r4
                              else SyntaxError
                          | [] => SyntaxError
                          end
                      | SyntaxError => SyntaxError
                      | OutOfFuel => OutOfFuel
                      end
                    else SyntaxError
                | [] => SyntaxError
                end
            | SyntaxError => SyntaxError
            | OutOfFuel => OutOfFuel
            end
          else SyntaxError
      | [] => SyntaxError
      end
  end

with parse_elements (fuel : nat) (cs : list ascii)
       (acc : list JsValue) : Parse JsValue :=
  match fuel with
  | O => OutOfFuel
  | S fuel' =>
      match parse_value fuel' cs with
      | Parsed v r1 =>
          match skip_ws r1 with
          | d :: r2 =>
              if Ascii.eqb d "," then parse_elements fuel' r2 (acc ++ [v])
              else if Ascii.eqb d "]" then Parsed (JArr (acc ++ [v])) r2
              else SyntaxError
          | [] => SyntaxError
          end
      | SyntaxError => SyntaxError
      | OutOfFuel => OutOfFuel
      end
  end.

(** One unit of fuel is spent per call, and between two calls on the same
    text at most one (the first element of an array) consumes nothing, so
    twice the length of the text always suffices; see [parse_text_fuel]. *)
Definition parse_text (cs : list ascii) : Parse JsValue :=
  match parse_value (S (2 * length cs)) cs with
  | Parsed v rest =>
      match skip_ws rest with
      | [] => Parsed v []
      | _ :: _ => SyntaxError
      end
  | SyntaxError => SyntaxError
  | OutOfFuel => OutOfFuel
  end.

(** [JSON.parse(text)]: the value, or [None] where JavaScript throws a
    [SyntaxError]. *)
Definition parse (text : string) : option JsValue :=
  match parse_text (list_ascii_of_string text) with
  | Parsed v _ => Some v
  | _ => None
  end.

Definition hex_digit (n : nat) : ascii :=
  if (n <? 10)%nat then ascii_of_nat (48 + n) else ascii_of_nat (87 + n).

Definition quote_char (c : ascii) : list ascii :=
  let n := nat_of_ascii c in
  if (n =? 34)%nat then ["\"%char; dquote]
  else if (n =? 92)%nat then ["\"; "\"]%char
  else if (n =? 8)%nat then ["\"; "b"]%char
  else if (n =? 12)%nat then ["\"; "f"]%char
  else if (n =? 10)%nat then ["\"; "n"]%char
  else if (n =? 13)%nat then ["\"; "r"]%char
  else if (n =? 9)%nat then ["\"; "t"]%char
  else if (n <? 32)%nat then
    ["\"; "u"; "0"; "0"; hex_digit (n / 16); hex_digit (n mod 16)]%char
  else [c].

Definition quote (s : string) : string :=
  string_of_list_ascii
    (dquote :: flat_map quote_char (list_ascii_of_string s) ++ [dquote]).

Fixpoint join (sep : string) (parts : list string) : string :=
  match parts with
  | [] => EmptyString
  | [p] => p
  | p :: r => p +:+ sep +:+ join sep r
  end.

(** [JSON.stringify(value)] without indentation. *)
Fixpoint stringify (v : JsValue) : string :=
  match v with
  | JNull => "null"
  | JBool true => "true"
  | JBool false => "false"
  | JNum l => l
  | JStr s => quote s
  | JArr l => "[" +:+ join "," (map stringify l) +:+ "]"
  | JObj ps =>
      "{" +:+ join ","
                (map (fun kv => match kv with
                                | (k, x) => quote k +:+ ":" +:+ stringify x
                                end) ps)
          +:+ "}"
  end.

End JSON.

(** A numeric literal [JSON.parse] accepts as a whole. *)
Definition number_literal (l : string) : bool :=
  match JSON.parse_number (list_ascii_of_string l) with
  | JSON.Parsed l' [] => bool_decide (l' = list_ascii_of_string l)
  | _ => false
  end.

(** The values that are JSON data, and so survive [JSON.stringify] followed
    by [JSON.parse]: their numbers are numeric literals and no object has a
    key twice. *)
Fixpoint json_safe (v : JsValue) : bool :=
  match v with
  | JNum l => number_literal l
  | JArr l => forallb json_safe l
  | JObj ps =>
      nodup_keys (map fst ps)
      && forallb (fun kv => match kv with (_, x) => json_safe x end) ps
  | _ => true
  end.

(** What may follow a value inside JSON text: nothing, a comma, or a
    closing bracket or brace. *)
Definition ends_value (rest : list ascii) : bool :=
  match rest with
  | [] => true
  | c :: _ => (Ascii.eqb c "," || Ascii.eqb c "]" || Ascii.eqb c "}")%bool
  end.

(** What may follow a numeric literal: anything that does not continue it. *)
Definition not_in_number (rest : list ascii) : Prop :=
  match rest with
  | [] => True
  | c :: _ =>
      is_digit c = false ∧ Ascii.eqb c "." = false
      ∧ Ascii.eqb c "e" = false ∧ Ascii.eqb c "E" = false
  end.

(** What may follow a run of digits. *)
Definition not_digit_next (x : list ascii) : Prop :=
  match x with [] => True | c :: _ => is_digit c = false end.

(** [JSON.parse], given enough fuel, reads the text of [v] back as [v] and
    stops where the text of [v] ends. *)
Definition reads_back (v : JsValue) : Prop :=
  json_safe v = true → ∀ fuel rest, ends_value rest = true →
  JSON.parse_value fuel (list_ascii_of_string (JSON.stringify v) ++ rest)
  = JSON.Parsed v rest
  ∨ JSON.parse_value fuel (list_ascii_of_string (JSON.stringify v) ++ rest)
    = JSON.OutOfFuel.

(* ===================================================================== *)
(** ** Live controls *)
(* ===================================================================== *)

(** What Angular's [AbstractControl] exposes to the manager: the status
    flags and errors of a node and, for a [FormGroup] or [FormArray], its
    child controls.  Validators are not part of the model: [valid] and
    [errors] are whatever the control last reported. *)
Record Status : Type := {
  valid : bool;
  dirty : bool;
  disabled : bool;
  errors : JsValue
}.

Unset Elimination Schemes.
Inductive AbstractControl : Type :=
| FormControl (value : JsValue) (st : Status)
| FormGroup (controls : list (string * AbstractControl)) (st : Status)
| FormArray (controls : list AbstractControl) (st : Status).
Set Elimination Schemes.

Definition status (c : AbstractControl) : Status :=
  match c with
  | FormControl _ st | FormGroup _ st | FormArray _ st => st
  end.

(** [control.value]: a composite reports the values of its enabled
    children, or of all of them when it is itself disabled. *)
Fixpoint control_value (c : AbstractControl) : JsValue :=
  match c with
  | FormControl v _ => v
  | FormGroup cs st =>
      JObj ((fix go (cs : list (string * AbstractControl)) :=
               match cs with
               | [] => []
               | (k, x) :: r =>
                   if (negb (disabled (status x)) || disabled st)%bool
                   then (k, control_value x) :: go r else go r
               end) cs)
  | FormArray cs st =>
      JArr ((fix go (cs : list AbstractControl) :=
               match cs with
               | [] => []
               | x :: r =>
                   if (negb (disabled (status x)) || disabled st)%bool
                   then control_value x :: go r else go r
               end) cs)
  end.

(** [control.patchValue(value, {emitEvent: false})]: a leaf takes the value;
    a group patches the children named by the value's own keys, an array the
    children at the value's indices; anything else is left alone. *)
Fixpoint patchValue (c : AbstractControl) (v : JsValue) : AbstractControl :=
  match c with
  | FormControl _ st => FormControl v st
  | FormGroup cs st =>
      match v with
      | JObj ps =>
          FormGroup
            ((fix go (cs : list (string * AbstractControl)) :=
                match cs with
                | [] => []
                | (k, x) :: r =>
                    (k, match obj_get k ps with
                        | Some xv => patchValue x xv
                        | None => x
                        end) :: go r
                end) cs) st
      | _ => c
      end
  | FormArray cs st =>
      match v with
      | JArr vs =>
          FormArray
            ((fix go (cs : list AbstractControl) (vs : list JsValue) :=
                match cs, vs with
                | x :: r, xv :: vr => patchValue x xv :: go r vr
                | _, _ => cs
                end) cs vs) st
      | _ => c
      end
  end.

(* ===================================================================== *)
(** ** Imported helpers *)
(* ===================================================================== *)

(** What the manager imports from [builders.ts], [utils.ts] and
    [isEqual.ts]. *)
Module Imports.

(** Modelled from the spec: [toStore] of [builders.ts] (§4.2 toSnapshot)
    is not in the source tree.  It reads value, valid, dirty, disabled and
    errors off the control and, for a composite, nests the snapshots of the
    children, in order, under [controls]. *)
Fixpoint toStore (name : string) (control : AbstractControl) : JsValue :=
  let st := status control in
  let node :=
    [("value", control_value control); ("valid", JBool (valid st));
     ("dirty", JBool (dirty st)); ("disabled", JBool (disabled st));
     ("errors", errors st)] in
  match control with
  | FormControl _ _ => JObj node
  | FormGroup cs _ =>
      JObj (node ++
        [("controls",
          JObj (map (fun kc => match kc with (k, x) => (k, toStore name x) end) cs))])
  | FormArray cs _ =>
      JObj (node ++ [("controls", JArr (map (toStore name) cs))])
  end.

(** The [arrControlFactory] option: one factory for an array control, or a
    factory per array-valued field of a group. *)
Inductive ControlFactory : Type :=
| FactoryFn (make : JsValue -> AbstractControl)
| FactoryMap (fields : list (string * (JsValue -> AbstractControl))).

Fixpoint field_factory (k : string)
    (fs : list (string * (JsValue -> AbstractControl)))
  : option (JsValue -> AbstractControl) :=
  match fs with
  | [] => None
  | (k', f) :: r => if String.eqb k k' then Some f else field_factory k r
  end.

(** A new child for each stored position the live array lacks. *)
Definition grow (make : JsValue -> AbstractControl) (stored : list JsValue)
    (cs : list AbstractControl) : list AbstractControl :=
  cs ++ map make (drop (length cs) stored).

(** Modelled from the spec: [handleFormArray] of [builders.ts] (§4.2
    applyStoredValue) is not in the source tree.  For each element position
    present in the stored value but absent as a live child it instantiates a
    child through the supplied factory; without a matching factory the
    control keeps its children. *)
Definition handleFormArray (value : JsValue) (control : AbstractControl)
    (factory : option ControlFactory) : AbstractControl :=
  match control with
  | FormControl _ _ => control
  | FormArray cs st =>
      match value, factory with
      | JArr vs, Some (FactoryFn make) => FormArray (grow make vs cs) st
      | _, _ => control
      end
  | FormGroup cs st =>
      match value, factory with
      | JObj ps, Some (FactoryMap fs) =>
          FormGroup
            (map (fun kc =>
                    match kc with
                    | (k, FormArray xs xst) =>
                        match obj_get k ps, field_factory k fs with
                        | Some (JArr vs), Some make =>
                            (k, FormArray (grow make vs xs) xst)
                        | _, _ => kc
                        end
                    | _ => kc
                    end) cs) st
      | _, _ => control
      end
  end.

(** The field a merge leaves under a key of the source: an object is
    merged into what the target has there (a fresh object when that is
    missing or falsy), anything else is taken as it is. *)
Definition merged_field (rec : JsValue -> JsValue -> JsValue)
    (sv : JsValue) (tv : option JsValue) : JsValue :=
  match sv with
  | JObj _ =>
      rec (match tv with
           | Some tv => if truthy tv then tv else JObj []
           | None => JObj []
           end) sv
  | _ => sv
  end.

Definition merge_props (rec : JsValue -> JsValue -> JsValue)
  : list (string * JsValue) -> list (string * JsValue) -> list (string * JsValue) :=
  fix go (sps tps : list (string * JsValue)) {struct sps} :=
    match sps with
    | [] => tps
    | (k, sv) :: rest =>
        go rest (obj_set k (merged_field rec sv (obj_get k tps)) tps)
    end.

(** Modelled from the spec: [mergeDeep] of [utils.ts] (§2 deep merge, §4.4
    step 2) is not in the source tree.  The source object is merged over the
    target key by key: an object-valued field is merged into the target's
    field (a fresh object when the target has none), any other field
    replaces the target's; unless both sides are objects the target is
    returned as it is. *)
Fixpoint mergeDeep (target source : JsValue) {struct source} : JsValue :=
  match target, source with
  | JObj tps, JObj sps => JObj (merge_props (fun t s => mergeDeep t s) sps tps)
  | _, _ => target
  end.

(** Modelled from the spec: [filterControlKeys] of [utils.ts] (§4.5, §6
    persisted layout) is not in the source tree.  It strips the bookkeeping
    of a snapshot, keeping its value-shaped data only. *)
Definition filterControlKeys (snapshot : JsValue) : JsValue :=
  match snapshot with
  | JObj ps => JObj (filter (fun kv => kv.1 = "value") ps)
  | _ => snapshot
  end.

(** A registration name, a collection of names, or no argument at all. *)
Inductive FormKeys : Type :=
| OneName (name : string)
| Names (names : list string).

(** [name ? a : b] on an optional [FormKeys]: the empty string is falsy, an
    array (even an empty one) is truthy. *)
Definition given (name : option FormKeys) : bool :=
  match name with
  | None => false
  | Some (OneName n) => negb (String.eqb n EmptyString)
  | Some (Names _) => true
  end.

(** Modelled from the spec: [coerceArray] of [utils.ts] (§2 array coercion)
    is not in the source tree.  A collection is itself, a single name a
    one-element collection; an omitted name contributes no name. *)
Definition coerceArray (name : option FormKeys) : list string :=
  match name with
  | None => []
  | Some (OneName n) => [n]
  | Some (Names ns) => ns
  end.

(** Modelled from the spec: [deleteControl] of [builders.ts] (§4.2
    removeEntries) is not in the source tree.  It returns a new top-level
    mapping with the given names' keys omitted. *)
Definition deleteControl (state : list (string * JsValue)) (names : list string)
  : list (string * JsValue) :=
  filter (fun kv => kv.1 ∉ names) state.

(** Modelled from the spec: [isEqual] of [isEqual.ts] (§2 deep equality) is
    not in the source tree.  Two values are equal when they have the same
    structure; [undefined] equals only itself. *)
Definition isEqual (a b : option JsValue) : bool :=
  match a, b with
  | Some x, Some y => value_eqb x y
  | None, None => true
  | _, _ => false
  end.

(** A path such as [address.street] or [phones.0], cut at its dots. *)
Fixpoint split_path (cs : list ascii) (cur : list ascii) : list string :=
  match cs with
  | [] => [string_of_list_ascii (rev cur)]
  | c :: r =>
      if Ascii.eqb c "." then string_of_list_ascii (rev cur) :: split_path r []
      else split_path r (c :: cur)
  end.

Fixpoint index_of_digits (cs : list ascii) (acc : nat) : option nat :=
  match cs with
  | [] => Some acc
  | c :: r =>
      if is_digit c then index_of_digits r (10 * acc + (nat_of_ascii c - 48))
      else None
  end.

Definition child (node : JsValue) (key : string) : option JsValue :=
  match node with
  | JObj ps =>
      match obj_get "controls" ps with
      | Some (JObj cs) => obj_get key cs
      | Some (JArr cs) =>
          match list_ascii_of_string key with
          | [] => None
          | ds => match index_of_digits ds 0 with
                  | Some i => cs !! i
                  | None => None
                  end
          end
      | _ => None
      end
  | _ => None
  end.

(** Modelled from the spec: [findControl] of [builders.ts] (§4.1 resolve)
    is not in the source tree.  It walks the snapshot hop by hop and answers
    [null] as soon as a hop has no such child. *)
Definition findControl (control : JsValue) (path : string) : JsValue :=
  default JNull
    (foldl (fun cur key => cur ≫= fun node => child node key)
           (Some control) (split_path (list_ascii_of_string path) [])).

End Imports.
Export Imports.



(* ===================================================================== *)
(** ** Configuration *)
(* ===================================================================== *)

(** The process-wide configuration, built-in defaults included. *)
Record Config : Type := {
  debounceTime : nat;
  persistState : bool;
  withInitialValue : bool;
  arrControlFactory : option ControlFactory;
  storage_key : string
}.

(** The optional third argument of [upsert]; an omitted field is [None]. *)
Module UpsertConfig.

Record t : Type := {
  persistState : option bool;
  debounceTime : option nat;
  arrControlFactory : option ControlFactory;
  withInitialValue : option bool
}.

(** [{}], the default argument. *)
Definition empty : t :=
  {| persistState := None; debounceTime := None;
     arrControlFactory := None; withInitialValue := None |}.

End UpsertConfig.

(** Modelled from the spec: [NgFormsManagerConfig.merge] of [config.ts] (§6
    configuration) is not in the source tree.  The call-site fields override
    the process-wide ones; the storage key is process-wide. *)
Definition merge (config : Config) (inline : UpsertConfig.t) : Config :=
  {| debounceTime := default (debounceTime config) (UpsertConfig.debounceTime inline);
     persistState := default (persistState config) (UpsertConfig.persistState inline);
     withInitialValue :=
       default (withInitialValue config) (UpsertConfig.withInitialValue inline);
     arrControlFactory :=
       match UpsertConfig.arrControlFactory inline with
       | Some f => Some f
       | None => arrControlFactory config
       end;
     storage_key := storage_key config |}.

(* ===================================================================== *)
(** ** The world a manager runs in *)
(* ===================================================================== *)

(** The runtime either has [localStorage] (a browser) or has no such global
    (server-side rendering). *)
Inductive Runtime : Type :=
| Browser (localStorage : gmap string string)
| Server.

(** An rxjs subscription created by [upsert]: what its callback closes over,
    and whether [unsubscribe()] has been called on it. *)
Record Subscription : Type := {
  subject : string;
  source : nat;
  settings : Config;
  closed : bool
}.

Definition shut (s : Subscription) : Subscription :=
  {| subject := subject s; source := source s; settings := settings s;
     closed := true |}.

(** The fields of [NgFormsManager] plus the objects it refers to.  The maps
    [valueChanges$$], [instances$$] and [initialValues$$] are the fields
    [valueChanges], [instances] and [initialValues]; a live control is a
    reference into [heap]; a subscription handle is an index into
    [subscriptions]; [destroyed] is what [destroy$$] has emitted. *)
Record World : Type := {
  store : list (string * JsValue);
  valueChanges : gmap string nat;
  instances : gmap string nat;
  initialValues : gmap string JsValue;
  destroyed : list string;
  runtime : Runtime;
  heap : list AbstractControl;
  subscriptions : list Subscription
}.

Definition with_store (s : list (string * JsValue)) (w : World) : World :=
  {| store := s; valueChanges := valueChanges w; instances := instances w;
     initialValues := initialValues w; destroyed := destroyed w;
     runtime := runtime w; heap := heap w; subscriptions := subscriptions w |}.

Definition with_valueChanges (m : gmap string nat) (w : World) : World :=
  {| store := store w; valueChanges := m; instances := instances w;
     initialValues := initialValues w; destroyed := destroyed w;
     runtime := runtime w; heap := heap w; subscriptions := subscriptions w |}.

Definition with_instances (m : gmap string nat) (w : World) : World :=
  {| store := store w; valueChanges := valueChanges w; instances := m;
     initialValues := initialValues w; destroyed := destroyed w;
     runtime := runtime w; heap := heap w; subscriptions := subscriptions w |}.

Definition with_initialValues (m : gmap string JsValue) (w : World) : World :=
  {| store := store w; valueChanges := valueChanges w; instances := instances w;
     initialValues := m; destroyed := destroyed w;
     runtime := runtime w; heap := heap w; subscriptions := subscriptions w |}.

Definition with_destroyed (d : list string) (w : World) : World :=
  {| store := store w; valueChanges := valueChanges w; instances := instances w;
     initialValues := initialValues w; destroyed := d;
     runtime := runtime w; heap := heap w; subscriptions := subscriptions w |}.

Definition with_runtime (r : Runtime) (w : World) : World :=
  {| store := store w; valueChanges := valueChanges w; instances := instances w;
     initialValues := initialValues w; destroyed := destroyed w;
     runtime := r; heap := heap w; subscriptions := subscriptions w |}.

Definition with_heap (h : list AbstractControl) (w : World) : World :=
  {| store := store w; valueChanges := valueChanges w; instances := instances w;
     initialValues := initialValues w; destroyed := destroyed w;
     runtime := runtime w; heap := h; subscriptions := subscriptions w |}.

Definition with_subscriptions (s : list Subscription) (w : World) : World :=
  {| store := store w; valueChanges := valueChanges w; instances := instances w;
     initialValues := initialValues w; destroyed := destroyed w;
     runtime := runtime w; heap := heap w; subscriptions := s |}.

(** The handles of the open subscriptions whose callback writes the store
    entry of [name]. *)
Definition writers (name : string) (w : World) : list nat :=
  List.filter
    (fun h => match subscriptions w !! h with
              | Some s => negb (closed s) && String.eqb (subject s) name
              | None => false
              end)
    (seq 0 (length (subscriptions w))).

(** Every open subscription that writes the entry of [name] is the one the
    manager has on record for [name]. *)
Definition only_recorded (name : string) (w : World) : bool :=
  forallb (fun h => bool_decide (valueChanges w !! name = Some h)) (writers name w).

(** A manager as its constructor leaves it. *)
Definition new_world (r : Runtime) (controls : list AbstractControl) : World :=
  {| store := []; valueChanges := ∅; instances := ∅; initialValues := ∅;
     destroyed := []; runtime := r; heap := controls; subscriptions := [] |}.

(** JavaScript exceptions. *)
Inductive JsError : Type :=
| ReferenceError
| SyntaxError
| TypeError.

Inductive Completion (A : Type) : Type :=
| Normal (a : A)
| Abrupt (e : JsError).
Arguments Normal {A} a.
Arguments Abrupt {A} e.

(** A method body: it returns or throws, and leaves a world behind either
    way (what was written before a throw stays written). *)
Definition M (A : Type) : Type := World -> Completion A * World.

#[global] Instance M_ret : MRet M := fun A a w => (Normal a, w).
#[global] Instance M_bind : MBind M := fun A B f m w =>
  match m w with
  | (Normal a, w') => f a w'
  | (Abrupt e, w') => (Abrupt e, w')
  end.

Definition throw {A : Type} (e : JsError) : M A := fun w => (Abrupt e, w).
Definition gets {A : Type} (f : World -> A) : M A := fun w => (Normal (f w), w).
Definition modify (f : World -> World) : M unit := fun w => (Normal tt, f w).
Definition when (b : bool) (m : M unit) : M unit := if b then m else mret tt.

Fixpoint for_each {A : Type} (xs : list A) (body : A -> M unit) : M unit :=
  match xs with
  | [] => mret tt
  | x :: r => body x;; for_each r body
  end.

(** [v[k]]: reading a property of [null] throws; only own properties of
    plain objects are modelled, so a registration name is assumed not to be
    an array index or the name of an inherited member. *)
Definition prop (v : JsValue) (k : string) : M (option JsValue) :=
  match v with
  | JNull => throw TypeError
  | JObj ps => mret (obj_get k ps)
  | _ => mret None
  end.

(** [v[k] = x] followed by reading [v] back: assignment to a property of
    [null] or of a primitive throws in strict code; a named property put on
    an array is not part of its JSON form. *)
Definition assign (v : JsValue) (k : string) (x : JsValue) : M JsValue :=
  match v with
  | JObj ps => mret (JObj (obj_set k x ps))
  | JArr _ => mret v
  | _ => throw TypeError
  end.

(** Modelled from the spec: [isBrowser] of [utils.ts] (§6 durable storage)
    is not in the source tree.  Storage is available in an interactive
    client and nowhere else. *)
Definition isBrowser (w : World) : bool :=
  match runtime w with Browser _ => true | Server => false end.

(** The global [localStorage]; naming it where it does not exist throws. *)
Definition localStorage_getItem (key : string) : M (option string) := fun w =>
  match runtime w with
  | Browser ls => (Normal (ls !! key), w)
  | Server => (Abrupt ReferenceError, w)
  end.

Definition localStorage_setItem (key value : string) : M unit := fun w =>
  match runtime w with
  | Browser ls => (Normal tt, with_runtime (Browser (<[key := value]> ls)) w)
  | Server => (Abrupt ReferenceError, w)
  end.

(** Modelled from the spec: [FormsStore] of [forms-manager.store.ts] (§4.3)
    is not in the source tree.  [set] replaces the mapping, [update]
    shallow-merges one top-level key into it. *)
Definition store_set (state : list (string * JsValue)) : M unit :=
  modify (with_store state).

Definition store_update (name : string) (value : JsValue) : M unit :=
  modify (fun w => with_store (obj_set name value (store w)) w).

(** [heap[ref]]; the manager is only ever handed references to controls that
    exist, where this is the control. *)
Definition deref (ref : nat) (w : World) : AbstractControl :=
  default (FormControl JNull
             {| valid := true; dirty := false; disabled := false; errors := JNull |})
          (heap w !! ref).

(* ===================================================================== *)
(** ** Streams *)
(* ===================================================================== *)

(** rxjs [distinctUntilChanged(compare)]: the first value passes; a later
    one passes unless [compare(previous passed value, value)] holds. *)
Fixpoint distinct_after {A : Type} (compare : A -> A -> bool) (prev : A)
    (xs : list A) : list A :=
  match xs with
  | [] => []
  | x :: r =>
      if compare prev x then distinct_after compare prev r
      else x :: distinct_after compare x r
  end.

Definition distinctUntilChanged {A : Type} (compare : A -> A -> bool)
    (xs : list A) : list A :=
  match xs with
  | [] => []
  | x :: r => x :: distinct_after compare x r
  end.

(** Modelled from the spec: [FormsStore.select] of [forms-manager.store.ts]
    (§4.3 selectByName) is not in the source tree.  It is the stream of the
    value at that key, absence included. *)
Definition select (name : string) (states : list (list (string * JsValue)))
  : list (option JsValue) :=
  map (obj_get name) states.

(** Modelled from the spec: [filterNil] of [utils.ts] (§2 nil filtering) is
    not in the source tree.  It discards [null] and [undefined]. *)
Definition filterNil (xs : list (option JsValue)) : list JsValue :=
  omap (fun x => match x with
                 | Some JNull | None => None
                 | Some v => Some v
                 end) xs.

(** No two neighbours of [xs] compare equal. *)
Fixpoint changes {A : Type} (compare : A -> A -> bool) (xs : list A) : bool :=
  match xs with
  | x :: r =>
      match r with
      | y :: _ => negb (compare x y) && changes compare r
      | [] => true
      end
  | [] => true
  end.

(** The store has an entry for [name] in [state]. *)
Definition present (name : string) (state : list (string * JsValue)) : bool :=
  match obj_get name state with
  | Some JNull | None => false
  | Some _ => true
  end.

(** [node[field]] where [node] is not [null]. *)
Definition field_of (field : string) (node : JsValue) : option JsValue :=
  match node with
  | JObj ps => obj_get field ps
  | _ => None
  end.

(** [out] is what a stream of [nodes] gives when each node is replaced by
    its [field]: one emission per node, in order, up to the end or up to the
    node whose field cannot be read. *)
Definition tracks (field : string) (out : list (option JsValue) * option JsError)
    (nodes : list JsValue) : Prop :=
  ∃ n, out.1 = map (field_of field) (take n nodes)
       ∧ (n = length nodes ∨ out.2 = Some TypeError).

(** rxjs [map(control => control[field])]: reading a field of [null] throws
    and ends the stream with that error. *)
Fixpoint pluck (field : string) (xs : list JsValue)
  : list (option JsValue) * option JsError :=
  match xs with
  | [] => ([], None)
  | JNull :: _ => ([], Some TypeError)
  | JObj ps :: r => let '(ys, e) := pluck field r in (obj_get field ps :: ys, e)
  | _ :: r => let '(ys, e) := pluck field r in (None :: ys, e)
  end.

(* ===================================================================== *)
(** ** The methods of NgFormsManager *)
(* ===================================================================== *)

Module NgFormsManager.
Section Methods.

(** [this.config], injected once and never assigned. *)
Variable config : Config.

(** [getControl(name, path?)] *)
Definition getControl (name : string) (path : option string) (w : World)
  : option JsValue :=
  match path with
  | Some p =>
      if String.eqb p EmptyString then obj_get name (store w)
      else if truthy_opt (obj_get name (store w)) then
        match obj_get name (store w) with
        | Some control => Some (findControl control p)
        | None => Some JNull
        end
      else Some JNull
  | None => obj_get name (store w)
  end.

(** [hasControl(name, path?)] *)
Definition hasControl (name : string) (path : option string) (w : World) : bool :=
  truthy_opt (getControl name path w).

(** [setInitialValue(name, value)] *)
Definition setInitialValue (name : string) (value : JsValue) : M unit :=
  modify (fun w => with_initialValues (<[name := value]> (initialValues w)) w).

(** [getFromStorage(key)] *)
Definition getFromStorage (key : string) : M JsValue :=
  item ← localStorage_getItem key;
  let text := match item with
              | Some s => if String.eqb s EmptyString then "{}" else s
              | None => "{}"
              end in
  match JSON.parse text with
  | Some v => mret v
  | None => throw SyntaxError
  end.

(** [removeFromStorage()] *)
Definition removeFromStorage : M unit :=
  state ← gets store;
  localStorage_setItem (storage_key (merge config UpsertConfig.empty))
                       (JSON.stringify (JObj state)).

(** [updateStorage(name, value, config)] *)
Definition updateStorage (name : string) (value : JsValue) (cfg : Config) : M unit :=
  browser ← gets isBrowser;
  when (browser && persistState cfg)
    (storageValue ← getFromStorage (storage_key cfg);
     storageValue' ← assign storageValue name (filterControlKeys value);
     localStorage_setItem (storage_key cfg) (JSON.stringify storageValue')).

(** [deleteControl(name)] *)
Definition deleteControl (name : option FormKeys) : M unit :=
  state ← gets store;
  store_set (Imports.deleteControl state (coerceArray name)).

(** [toControlValue(name, control, arrControlFactory)]: the stored value
    and, when the stored node is a composite, the live control resized to
    it. *)
Definition toControlValue (name : string) (control : nat)
    (factory : option ControlFactory) : M JsValue :=
  currentControl ← gets (getControl name None);
  let value :=
    match currentControl with
    | Some (JObj ps) => default JNull (obj_get "value" ps)
    | _ => JNull
    end in
  let composite :=
    match currentControl with
    | Some (JObj ps) => truthy_opt (obj_get "controls" ps)
    | _ => false
    end in
  when composite
    (modify (fun w =>
       with_heap (<[control := handleFormArray value (deref control w) factory]> (heap w)) w));;
  mret value.

(** [updateStore(name, control)] *)
Definition updateStore (name : string) (control : nat) : M JsValue :=
  live ← gets (deref control);
  let value := toStore name live in
  store_update name value;;
  mret value.

(** [removeInitialValue(name)] *)
Definition removeInitialValue (name : option FormKeys) : M unit :=
  for_each (coerceArray name) (fun name =>
    modify (fun w => with_initialValues (delete name (initialValues w)) w)).

(** The callback [upsert] subscribes with. *)
Definition on_change (name : string) (control : nat) (mergedConfig : Config) : M unit :=
  value ← updateStore name control;
  updateStorage name value mergedConfig.

(** [merge(control.valueChanges, control.statusChanges.pipe(...)).pipe(
    debounceTime(...)).subscribe(callback)]: a new open subscription. *)
Definition subscribe (name : string) (control : nat) (mergedConfig : Config) : M nat :=
  handle ← gets (fun w => length (subscriptions w));
  modify (fun w =>
    with_subscriptions
      (subscriptions w ++
         [{| subject := name; source := control; settings := mergedConfig;
             closed := false |}]) w);;
  mret handle.

(** [subscription.unsubscribe()] *)
Definition close (handle : nat) : M unit :=
  modify (fun w => with_subscriptions (alter shut handle (subscriptions w)) w).

(** [this.destroy$$.next(name)] *)
Definition destroy_next (name : string) : M unit :=
  modify (fun w => with_destroyed (destroyed w ++ [name]) w).

(** The storage re-hydration of [upsert] (its second [if]). *)
Definition rehydrate (name : string) (control : nat) (inline : UpsertConfig.t)
    (mergedConfig : Config) : M unit :=
  browser ← gets isBrowser;
  registered ← gets (hasControl name None);
  when (browser && bool_decide (UpsertConfig.persistState inline = Some true)
        && negb registered)
    (storageValue ← getFromStorage (storage_key mergedConfig);
     entry ← prop storageValue name;
     match entry with
     | Some persisted =>
         when (truthy persisted)
           (live ← gets (deref control);
            store_update name (mergeDeep (toStore name live) persisted))
     | None => mret tt
     end).

(** The persisted blob has nothing to re-hydrate [name] from: there is no
    storage, the call does not ask for persistence, or the blob is read and
    has no truthy entry for the name. *)
Definition nothing_to_rehydrate (name : string) (inline : UpsertConfig.t)
    (w : World) : Prop :=
  isBrowser w = false
  ∨ UpsertConfig.persistState inline ≠ Some true
  ∨ ∃ blob entry,
      (getFromStorage (storage_key config) w).1 = Normal blob
      ∧ (prop blob name w).1 = Normal entry
      ∧ truthy_opt entry = false.

(** [upsert(name, control, config = {})], statement by statement: the
    initial value is captured, the persisted entry re-hydrated, the control
    and the store brought in line, and the change subscription installed. *)
Definition capture_initial_value (name : string) (control : nat)
    (mergedConfig : Config) : M unit :=
  captured ← gets (fun w => bool_decide (is_Some (initialValues w !! name)));
  when (withInitialValue mergedConfig && negb captured)
    (live ← gets (deref control);
     setInitialValue name (control_value live)).

Definition synchronise (name : string) (control : nat) (mergedConfig : Config)
  : M unit :=
  registered ← gets (hasControl name None);
  if (registered : bool) then
    value ← toControlValue name control (arrControlFactory mergedConfig);
    modify (fun w =>
      with_heap (<[control := patchValue (deref control w) value]> (heap w)) w)
  else
    value ← updateStore name control;
    updateStorage name value mergedConfig.

Definition register (name : string) (control : nat) (mergedConfig : Config)
  : M unit :=
  unsubscribe ← subscribe name control mergedConfig;
  modify (fun w => with_valueChanges (<[name := unsubscribe]> (valueChanges w)) w);;
  modify (fun w => with_instances (<[name := control]> (instances w)) w).

Definition upsert (name : string) (control : nat) (inline : UpsertConfig.t) : M unit :=
  let mergedConfig := merge config inline in
  capture_initial_value name control mergedConfig;;
  rehydrate name control inline mergedConfig;;
  synchronise name control mergedConfig;;
  register name control mergedConfig.

(** [unsubscribe(name?)] *)
Definition unsubscribe (name : option FormKeys) : M unit :=
  if given name then
    for_each (coerceArray name) (fun name =>
      recorded ← gets (fun w => valueChanges w !! name);
      match recorded with
      | Some subscription => close subscription
      | None => mret tt
      end;;
      modify (fun w => with_valueChanges (delete name (valueChanges w)) w);;
      modify (fun w => with_instances (delete name (instances w)) w);;
      destroy_next name)
  else
    recorded ← gets (fun w => map_to_list (valueChanges w));
    for_each recorded (fun entry =>
      close entry.2;;
      destroy_next "$$ALL");;
    modify (with_valueChanges ∅);;
    modify (with_instances ∅).

(** [clear(name?)] *)
Definition clear (name : option FormKeys) : M unit :=
  (if given name then deleteControl name else store_set []);;
  removeFromStorage;;
  removeInitialValue name.

(** [destroy(name?)] *)
Definition destroy (name : option FormKeys) : M unit :=
  unsubscribe name;;
  clear name.

(** [controlDestroyed(name)], applied to what [destroy$$] emits. *)
Definition controlDestroyed (name : string) (emitted : list string) : list string :=
  filter (fun controlName => name = controlName ∨ controlName = "$$ALL") emitted.

(** *** Derived streams

    A stream is described by the finite sequence of values it has emitted;
    [states] is what the store has emitted, oldest first. *)

(** [controlChanges(name, path?)] *)
Definition controlChanges (name : string) (path : option string)
    (states : list (list (string * JsValue))) : list JsValue :=
  let control := filterNil (select name states) in
  match path with
  | Some p =>
      if String.eqb p EmptyString
      then distinctUntilChanged (fun a b => isEqual (Some a) (Some b)) control
      else distinctUntilChanged (fun a b => isEqual (Some a) (Some b))
             (map (fun control => findControl control p) control)
  | None => distinctUntilChanged (fun a b => isEqual (Some a) (Some b)) control
  end.

(** [valueChanges] (here [valueChanges_of], the plain name being the
    field), [validityChanges], [dirtyChanges], [disableChanges] and
    [errorsChanges]: [controlChanges(name, path).pipe(map(control =>
    control.field))]. *)
Definition valueChanges_of (name : string) (path : option string)
    (states : list (list (string * JsValue))) : list (option JsValue) * option JsError :=
  pluck "value" (controlChanges name path states).

Definition validityChanges (name : string) (path : option string)
    (states : list (list (string * JsValue))) : list (option JsValue) * option JsError :=
  pluck "valid" (controlChanges name path states).

Definition dirtyChanges (name : string) (path : option string)
    (states : list (list (string * JsValue))) : list (option JsValue) * option JsError :=
  pluck "dirty" (controlChanges name path states).

Definition disableChanges (name : string) (path : option string)
    (states : list (list (string * JsValue))) : list (option JsValue) * option JsError :=
  pluck "disabled" (controlChanges name path states).

Definition errorsChanges (name : string) (path : option string)
    (states : list (list (string * JsValue))) : list (option JsValue) * option JsError :=
  pluck "errors" (controlChanges name path states).

(** The comparison [initialValueChanged(name)] makes for one emitted value:
    [isEqual(current, this.initialValues$$.get(name)) === false]. *)
Definition initialValueChanged (name : string) (w : World)
    (current : option JsValue) : bool :=
  negb (isEqual current (initialValues w !! name)).

(** *** What happens between calls *)

(** The application changes a live control, or the debounced change stream
    a subscription listens to delivers to its callback. *)
Inductive Event : Type :=
| ControlChanged (control : nat) (now : AbstractControl)
| Delivered (handle : nat).

Definition react (e : Event) : M unit :=
  match e with
  | ControlChanged control now =>
      modify (fun w => with_heap (<[control := now]> (heap w)) w)
  | Delivered handle =>
      subscription ← gets (fun w => subscriptions w !! handle);
      match subscription with
      | Some s =>
          if closed s then mret tt
          else on_change (subject s) (source s) (settings s)
      | None => mret tt
      end
  end.

(** An exception thrown inside a subscriber does not reach the manager's
    caller; the world it leaves behind is what the next event finds. *)
Definition run_events (es : list Event) (w : World) : World :=
  foldl (fun w e => (react e w).2) w es.

(** [isValid(name)]: [this.hasControl(name) && this.getControl(name).valid],
    that is [false] without a store entry and otherwise whatever the entry
    has under [valid] ([undefined] being [None]). *)
Definition isValid (name : string) (w : World) : option JsValue :=
  if hasControl name None w then
    match getControl name None w with
    | Some (JObj ps) => obj_get "valid" ps
    | _ => None
    end
  else Some (JBool false).

End Methods.

(** The proxy to the control's own [patchValue]: nothing happens for a name
    without a recorded instance; otherwise the live control is patched.  The
    options are handed through and only decide which events the control
    emits, which is the environment's part ([Event]). *)
Module Proxy.

Definition patchValue (name : string) (value : JsValue) : M unit :=
  recorded ← gets (fun w => instances w !! name);
  match recorded with
  | Some control =>
      modify (fun w =>
        with_heap (<[control := patchValue (deref control w) value]> (heap w)) w)
  | None => mret tt
  end.

End Proxy.

End NgFormsManager.

(* ===================================================================== *)
(** ** What a method leaves alone *)
(* ===================================================================== *)

(** [w'] differs from [w] at most in the store entry of [name], in the live
    control [control] and in what storage holds. *)
Definition same_but (name : string) (control : nat) (w w' : World) : Prop :=
  (∀ other, other ≠ name → obj_get other (store w') = obj_get other (store w))
  ∧ valueChanges w' = valueChanges w
  ∧ instances w' = instances w
  ∧ initialValues w' = initialValues w
  ∧ destroyed w' = destroyed w
  ∧ subscriptions w' = subscriptions w
  ∧ (∀ other, other ≠ control → heap w' !! other = heap w !! other)
  ∧ isBrowser w' = isBrowser w.

(* ===================================================================== *)
(** ** Sample forms and worlds *)
(* ===================================================================== *)

Module Example.
Import NgFormsManager.

Definition untouched : Status :=
  {| valid := true; dirty := false; disabled := false; errors := JNull |}.

Definition edited : Status :=
  {| valid := true; dirty := true; disabled := false; errors := JNull |}.

(** A login form the user has typed into, a blank one with one more
    field, and a single theme field. *)
Definition login_edited : AbstractControl :=
  FormGroup [("email", FormControl (JStr "a@x.com") edited)] edited.

Definition login_blank : AbstractControl :=
  FormGroup [("email", FormControl (JStr EmptyString) untouched);
             ("password", FormControl (JStr EmptyString) untouched)] untouched.

Definition theme : AbstractControl := FormControl (JStr "dark") untouched.

Definition forms : list AbstractControl := [login_edited; login_blank; theme].

Definition config : Config :=
  {| debounceTime := 300; persistState := false; withInitialValue := false;
     arrControlFactory := None; storage_key := "ngFormsManager" |}.

(** The same with [persistState] switched on for the whole process. *)
Definition persisting : Config :=
  {| debounceTime := 300; persistState := true; withInitialValue := false;
     arrControlFactory := None; storage_key := "ngFormsManager" |}.

Definition persist : UpsertConfig.t :=
  {| UpsertConfig.persistState := Some true; UpsertConfig.debounceTime := None;
     UpsertConfig.arrControlFactory := None;
     UpsertConfig.withInitialValue := None |}.

Definition with_initial : UpsertConfig.t :=
  {| UpsertConfig.persistState := None; UpsertConfig.debounceTime := None;
     UpsertConfig.arrControlFactory := None;
     UpsertConfig.withInitialValue := Some true |}.

(** A fresh manager in a browser with empty storage, in a browser whose
    storage holds a saved login, in a browser whose blob is cut short, and
    on a server. *)
Definition browser : World := new_world (Browser ∅) forms.

Definition saved_login : list (string * JsValue) :=
  [("login", JObj [("value", JObj [("email", JStr "saved@x.com")])])].

Definition saved_text : string :=
  json_text "{'login':{'value':{'email':'saved@x.com'}}}".

Definition saved_storage : gmap string string :=
  {["ngFormsManager" := saved_text]}.

Definition saved : World := new_world (Browser saved_storage) forms.

Definition cut_short : string := json_text "{'login':{'value':".

Definition corrupt_storage : gmap string string :=
  {["ngFormsManager" := cut_short]}.

Definition corrupt : World := new_world (Browser corrupt_storage) forms.

Definition server : World := new_world Server forms.

(** [upsert('login', edited)] and then [upsert('login', blank)]. *)
Definition once : World :=
  (upsert config "login" 0 UpsertConfig.empty browser).2.

Definition twice : World :=
  (upsert config "login" 1 UpsertConfig.empty once).2.

(** [upsert('login', edited)] and [upsert('theme', theme)]. *)
Definition two_names : World :=
  (upsert config "theme" 2 UpsertConfig.empty once).2.

(** [upsert('', theme)] and [upsert('login', edited)]. *)
Definition unnamed : World :=
  (upsert config "login" 0 UpsertConfig.empty
     (upsert config EmptyString 2 UpsertConfig.empty browser).2).2.

(** [upsert('login', edited, {withInitialValue: true})]. *)
Definition captured : World :=
  (upsert config "login" 0 with_initial browser).2.

(** The edited login form after one more keystroke. *)
Definition login_retyped : AbstractControl :=
  FormGroup [("email", FormControl (JStr "b@x.com") edited)] edited.





(** A browser whose blob is the JSON [null]. *)
Definition null_storage : gmap string string := {["ngFormsManager" := "null"]}.

Definition nulled : World := new_world (Browser null_storage) forms.

(** The login form registered on a server. *)
Definition server_once : World :=
  (upsert config "login" 0 UpsertConfig.empty server).2.
End Example.

(* ===================================================================== *)
(** * Theorems *)
(* ===================================================================== *)

Import NgFormsManager.
Local Open Scope nat_scope.

(* ===================================================================== *)
(** ** The JSON parser never runs out of fuel *)
(* ===================================================================== *)

Module JSONFacts.
Import JSON.

Lemma skip_ws_length cs : length (skip_ws cs) ≤ length cs.
Proof. induction cs as [|c r IH]; simpl; [lia|]. destruct (is_ws c); simpl; lia. Qed.

Lemma parse_chars_bounded n : ∀ cs acc, length cs ≤ n →
  parse_chars cs acc ≠ OutOfFuel ∧
  ∀ s r, parse_chars cs acc = Parsed s r → length r < length cs.
Proof.
  induction n as [n IH] using lt_wf_ind.
  intros cs acc Hn. destruct cs as [|c r]; simpl; [split; [done | intros ?? [=]]|].
  destruct (Ascii.eqb c dquote).
  { split; [done|]. intros ?? [= _ ->]. lia. }
  destruct (Ascii.eqb c "\").
  - destruct r as [|e r1]; [split; [done | intros ?? [=]]|].
    destruct (Ascii.eqb e "u").
    + destruct r1 as [|h1 [|h2 [|h3 [|h4 r2]]]]; try (split; [done | intros ?? [=]]).
      destruct (hex_val h1) as [a|], (hex_val h2) as [b|], (hex_val h3) as [c'|],
        (hex_val h4) as [d|]; try (split; [done | intros ?? [=]]).
      destruct (IH (length r2) ltac:(simpl in Hn; lia) r2
                  (rev (utf8_of_code_unit (((a * 16 + b) * 16 + c') * 16 + d)) ++ acc)
                  ltac:(lia)) as [H1 H2].
      split; [exact H1|]. intros s r' H. apply H2 in H. simpl. lia.
    + destruct (simple_escape e); [|split; [done | intros ?? [=]]].
      destruct (IH (length r1) ltac:(simpl in Hn; lia) r1 (a :: acc) ltac:(lia)) as [H1 H2].
      split; [exact H1|]. intros s r' H. apply H2 in H. simpl. lia.
  - destruct (nat_of_ascii c <? 32)%nat; [split; [done | intros ?? [=]]|].
    destruct (IH (length r) ltac:(simpl in Hn; lia) r (c :: acc) ltac:(lia)) as [H1 H2].
    split; [exact H1|]. intros s r' H. apply H2 in H. simpl. lia.
Qed.

Lemma span_digits_length cs ds r :
  span_digits cs = (ds, r) → length ds + length r = length cs.
Proof.
  revert ds r. induction cs as [|c cs IH]; simpl; intros ds r.
  - intros [= <- <-]. done.
  - destruct (is_digit c).
    + destruct (span_digits cs) as [ds' r'] eqn:E. intros [= <- <-].
      specialize (IH _ _ eq_refl). simpl. lia.
    + intros [= <- <-]. simpl. lia.
Qed.

Lemma parse_number_shorter cs :
  parse_number cs ≠ OutOfFuel ∧
  ∀ l r, parse_number cs = Parsed l r → length r < length cs.
Proof.
  unfold parse_number.
  set (p := match cs with c :: r => if Ascii.eqb c "-" then ([c], r) else ([], cs) | [] => ([], cs) end).
  assert (Hp : length p.2 ≤ length cs).
  { subst p. destruct cs as [|c r]; simpl; [lia|]. destruct (Ascii.eqb c "-"); simpl; lia. }
  destruct p as [sign r0]. simpl in Hp.
  destruct (span_digits r0) as [int r1] eqn:E1. apply span_digits_length in E1.
  destruct int as [|d ds]; [split; [done | intros ?? [=]]|]. simpl in E1.
  destruct (Ascii.eqb d "0" && negb (length ds =? 0)%nat)%bool; [split; [done | intros ?? [=]]|].
  assert (Hfrac : ∀ fs r2,
    match r1 with
    | c :: r => if Ascii.eqb c "." then
                  let '(fs, r2) := span_digits r in
                  match fs with [] => SyntaxError | _ => Parsed (c :: fs) r2 end
                else Parsed [] r1
    | [] => Parsed [] r1
    end = Parsed fs r2 → length r2 ≤ length r1).
  { intros fs r2. destruct r1 as [|c r]; [intros [= _ <-]; done|].
    destruct (Ascii.eqb c "."); [|intros [= _ <-]; done].
    destruct (span_digits r) as [fs' r2'] eqn:E2. apply span_digits_length in E2.
    destruct fs'; [intros [=]|]. intros [= _ <-]. simpl. lia. }
  destruct (match r1 with [] => _ | _ => _ end) as [fs r2| |] eqn:Ef.
  - specialize (Hfrac _ _ eq_refl).
    destruct r2 as [|c r]; [split; [done|]; intros ?? [= _ <-]; simpl in *; lia|].
    destruct (Ascii.eqb c "e" || Ascii.eqb c "E")%bool;
      [|split; [done|]; intros ?? [= _ <-]; simpl in *; lia].
    set (q := match r with s :: r' => if (Ascii.eqb s "+" || Ascii.eqb s "-")%bool then ([s], r') else ([], r) | [] => ([], r) end).
    assert (Hq : length q.2 ≤ length r).
    { subst q. destruct r as [|s r']; simpl; [lia|].
      destruct (Ascii.eqb s "+" || Ascii.eqb s "-")%bool; simpl; lia. }
    destruct q as [sg r3]. simpl in Hq.
    destruct (span_digits r3) as [es r4] eqn:E4. apply span_digits_length in E4.
    destruct es; [split; [done | intros ?? [=]]|].
    split; [done|]. intros ?? [= _ <-]. simpl in *. lia.
  - split; [done | intros ?? [=]].
  - exfalso. destruct r1 as [|c r]; [done|]. destruct (Ascii.eqb c "."); [|done].
    destruct (span_digits r) as [[|??] ?]; done.
Qed.

Lemma expect_length lit : ∀ cs r, expect lit cs = Some r → length r + length lit = length cs.
Proof.
  induction lit as [|l lit IH]; intros cs r; simpl.
  - intros [= <-]. lia.
  - destruct cs as [|c cs]; [done|]. destruct (Ascii.eqb l c); [|done].
    intros H. apply IH in H. simpl. lia.
Qed.

Ltac rejects := split; [done | intros ?? [=]].

Lemma parse_fuel f :
  (∀ cs, 2 * length cs + 1 ≤ f →
     parse_value f cs ≠ OutOfFuel ∧
     ∀ v r, parse_value f cs = Parsed v r → length r < length cs) ∧
  (∀ cs acc, 2 * length cs + 1 ≤ f →
     parse_members f cs acc ≠ OutOfFuel ∧
     ∀ v r, parse_members f cs acc = Parsed v r → length r < length cs) ∧
  (∀ cs acc, 2 * length cs + 2 ≤ f →
     parse_elements f cs acc ≠ OutOfFuel ∧
     ∀ v r, parse_elements f cs acc = Parsed v r → length r < length cs).
Proof.
  induction f as [|f (IHv & IHm & IHe)]; [repeat split; intros; lia|].
  split; [|split].
  - intros cs Hf. cbn [parse_value].
    pose proof (skip_ws_length cs) as Hws.
    destruct (skip_ws cs) as [|c r]; [rejects|]. simpl in Hws.
    destruct (Ascii.eqb c "{").
    { pose proof (skip_ws_length r) as Hws1.
      destruct (skip_ws r) as [|c1 r1]; [rejects|]. simpl in Hws1.
      destruct (Ascii.eqb c1 "}"); [split; [done|]; intros ?? [= _ <-]; lia|].
      destruct (IHm (c1 :: r1) [] ltac:(simpl; lia)) as [H1 H2].
      split; [exact H1|]. intros v r' H. apply H2 in H. simpl in H. lia. }
    destruct (Ascii.eqb c "[").
    { pose proof (skip_ws_length r) as Hws1.
      destruct (skip_ws r) as [|c1 r1]; [rejects|]. simpl in Hws1.
      destruct (Ascii.eqb c1 "]"); [split; [done|]; intros ?? [= _ <-]; lia|].
      destruct (IHe (c1 :: r1) [] ltac:(simpl; lia)) as [H1 H2].
      split; [exact H1|]. intros v r' H. apply H2 in H. simpl in H. lia. }
    destruct (Ascii.eqb c dquote).
    { destruct (parse_chars_bounded _ r [] (le_n _)) as [H1 H2].
      destruct (parse_chars r []) as [s r1| |]; [|rejects|done].
      split; [done|]. intros ?? [= _ <-]. specialize (H2 _ _ eq_refl). lia. }
    destruct (Ascii.eqb c "-" || is_digit c)%bool.
    { destruct (parse_number_shorter (c :: r)) as [H1 H2].
      destruct (parse_number (c :: r)) as [l r1| |]; [|rejects|done].
      split; [done|]. intros ?? [= _ <-]. specialize (H2 _ _ eq_refl). simpl in H2. lia. }
    destruct (expect _ (c :: r)) as [r1|] eqn:E1.
    { apply expect_length in E1. split; [done|]. intros ?? [= _ <-]. simpl in E1. lia. }
    destruct (expect _ (c :: r)) as [r1|] eqn:E2 in |- *.
    { apply expect_length in E2. split; [done|]. intros ?? [= _ <-]. simpl in E2. lia. }
    destruct (expect _ (c :: r)) as [r1|] eqn:E3 in |- *; [|rejects].
    apply expect_length in E3. split; [done|]. intros ?? [= _ <-]. simpl in E3. lia.
  - intros cs acc Hf. cbn [parse_members].
    pose proof (skip_ws_length cs) as Hws.
    destruct (skip_ws cs) as [|q r]; [rejects|]. simpl in Hws.
    destruct (Ascii.eqb q dquote); [|rejects].
    destruct (parse_chars_bounded _ r [] (le_n _)) as [Hc1 Hc2].
    destruct (parse_chars r []) as [k r1| |]; [|rejects|done].
    specialize (Hc2 _ _ eq_refl).
    pose proof (skip_ws_length r1) as Hws1.
    destruct (skip_ws r1) as [|colon r2]; [rejects|]. simpl in Hws1.
    destruct (Ascii.eqb colon ":"); [|rejects].
    destruct (IHv r2 ltac:(lia)) as [Hv1 Hv2].
    destruct (parse_value f r2) as [v r3| |]; [|rejects|done].
    specialize (Hv2 _ _ eq_refl).
    pose proof (skip_ws_length r3) as Hws3.
    destruct (skip_ws r3) as [|d r4]; [rejects|]. simpl in Hws3.
    destruct (Ascii.eqb d ",").
    { destruct (IHm r4 (obj_set (string_of_list_ascii k) v acc) ltac:(lia)) as [H1 H2].
      split; [exact H1|]. intros v' r' H. apply H2 in H. lia. }
    destruct (Ascii.eqb d "}"); [|rejects].
    split; [done|]. intros ?? [= _ <-]. lia.
  - intros cs acc Hf. cbn [parse_elements].
    destruct (IHv cs ltac:(lia)) as [Hv1 Hv2].
    destruct (parse_value f cs) as [v r1| |]; [|rejects|done].
    specialize (Hv2 _ _ eq_refl).
    pose proof (skip_ws_length r1) as Hws1.
    destruct (skip_ws r1) as [|d r2]; [rejects|]. simpl in Hws1.
    destruct (Ascii.eqb d ",").
    { destruct (IHe r2 (acc ++ [v]) ltac:(lia)) as [H1 H2].
      split; [exact H1|]. intros v' r' H. apply H2 in H. lia. }
    destruct (Ascii.eqb d "]"); [|rejects].
    split; [done|]. intros ?? [= _ <-]. lia.
Qed.

Lemma parse_text_fuel cs : parse_text cs ≠ OutOfFuel.
Proof.
  unfold parse_text.
  destruct (parse_fuel (S (2 * length cs))) as [Hv _].
  destruct (Hv cs ltac:(lia)) as [H _].
  destruct (parse_value _ cs) as [v r| |]; [|done|done].
  destruct (skip_ws r); done.
Qed.

(** [JSON.parse] answers [None] only for a text that is not JSON. *)
Lemma parse_None_is_syntax_error text :
  parse text = None → parse_text (list_ascii_of_string text) = SyntaxError.
Proof.
  unfold parse. pose proof (parse_text_fuel (list_ascii_of_string text)) as H.
  by destruct (parse_text _).
Qed.

End JSONFacts.

(** The codec on sample texts. *)
Example parse_login :
  JSON.parse (json_text "{ 'login': {'value': {'email': 'a@x.com', 'age': 31}}, 'on': [true, null, -1.5e3] }")
  = Some (JObj [("login", JObj [("value", JObj [("email", JStr "a@x.com"); ("age", JNum "31")])]);
                ("on", JArr [JBool true; JNull; JNum "-1.5e3"])]).
Proof. reflexivity. Qed.

Example parse_truncated : JSON.parse (json_text "{'login': ") = None.
Proof. reflexivity. Qed.

Example parse_escapes :
  JSON.parse (json_text "['a\u0041\n', {'k': 1, 'k': 2}]")
  = Some (JArr [JStr (String "a" (String "A" (String (ascii_of_nat 10) EmptyString)));
                JObj [("k", JNum "2")]]).
Proof. reflexivity. Qed.

Example stringify_login :
  JSON.stringify (JObj [("login", JObj [("value", JStr (json_text "a 'b'"))]); ("n", JArr [JNum "1"; JNull])])
  = json_text "{'login':{'value':'a \'b\''},'n':[1,null]}".
Proof. reflexivity. Qed.

(* ===================================================================== *)
(** ** Facts about property lists *)
(* ===================================================================== *)

Lemma obj_get_set_eq k v ps : obj_get k (obj_set k v ps) = Some v.
Proof.
  induction ps as [|[k0 v0] r IH]; simpl.
  - by rewrite String.eqb_refl.
  - destruct (String.eqb_spec k k0) as [->|Hne]; simpl.
    + by rewrite String.eqb_refl.
    + destruct (String.eqb_spec k k0); [done | exact IH].
Qed.

Lemma obj_get_set_ne k k' v ps :
  k ≠ k' → obj_get k' (obj_set k v ps) = obj_get k' ps.
Proof.
  intros Hne. induction ps as [|[k0 v0] r IH]; simpl.
  - destruct (String.eqb_spec k' k); [congruence | done].
  - destruct (String.eqb_spec k k0) as [->|Hk]; simpl.
    + destruct (String.eqb_spec k' k0); [congruence | done].
    + destruct (String.eqb_spec k' k0); [done | exact IH].
Qed.

Lemma obj_get_deleteControl k state names :
  obj_get k (Imports.deleteControl state names)
  = if decide (k ∈ names) then None else obj_get k state.
Proof.
  unfold Imports.deleteControl.
  induction state as [|[k0 v0] r IH]; [by destruct (decide _)|].
  rewrite filter_cons. simpl.
  destruct (decide (k0 ∉ names)) as [Hin|Hin]; simpl.
  - destruct (String.eqb_spec k k0) as [->|Hne]; [|exact IH].
    by destruct (decide (k0 ∈ names)).
  - rewrite IH. destruct (String.eqb_spec k k0) as [->|Hne]; [|done].
    destruct (decide (k0 ∈ names)); [done|]. by destruct Hin.
Qed.

(* ===================================================================== *)
(** ** Streams *)
(* ===================================================================== *)

Section DistinctUntilChanged.
Context {A : Type} (compare : A -> A -> bool).

Lemma distinct_after_changes prev xs :
    changes compare (prev :: distinct_after compare prev xs) = true.
  Proof.
    revert prev. induction xs as [|x r IH]; intros prev; [done|].
    cbn [distinct_after]. destruct (compare prev x) eqn:E; [apply IH|].
    change (negb (compare prev x) && changes compare (x :: distinct_after compare x r) = true).
    rewrite E. apply IH.
  Qed.

Lemma distinctUntilChanged_changes xs :
    changes compare (distinctUntilChanged compare xs) = true.
  Proof. destruct xs; [done | apply distinct_after_changes]. Qed.

Lemma changes_take n xs :
    changes compare xs = true → changes compare (take n xs) = true.
  Proof.
    revert n. induction xs as [|x r IH]; intros [|n] H; try done.
    destruct r as [|y r']; [by destruct n|].
    destruct n as [|n]; [done|].
    change (negb (compare x y) && changes compare (y :: r') = true) in H.
    apply andb_prop in H as [H1 H2].
    change (negb (compare x y) && changes compare (take (S n) (y :: r')) = true).
    rewrite H1. by apply IH.
  Qed.
End DistinctUntilChanged.

Lemma filterNil_select_present name states :
  filterNil (select name states)
  = filterNil (select name (List.filter (present name) states)).
Proof.
  unfold filterNil, select, present.
  induction states as [|st r IH]; [done|]. simpl.
  destruct (obj_get name st) as [[]|] eqn:E; simpl; rewrite ?E; simpl;
    first [exact IH | f_equal; exact IH].
Qed.

Lemma pluck_tracks field nodes : tracks field (pluck field nodes) nodes.
Proof.
  unfold tracks. induction nodes as [|x r (n & Hn & Hend)].
  - exists 0. by split; [|left].
  - destruct x; simpl;
      try (destruct (pluck field r) as [ys e] eqn:E; exists (S n); simpl in *;
           split; [by rewrite Hn | destruct Hend as [->|He]; [by left | by right]]).
    exists 0. split; [done | by right].
Qed.

Lemma distinct_after_length {A : Type} (compare : A -> A -> bool) prev xs :
  length (distinct_after compare prev xs) ≤ length xs.
Proof.
  revert prev. induction xs as [|x r IH]; intros prev; simpl; [lia|].
  destruct (compare prev x); [specialize (IH prev) | specialize (IH x); simpl]; lia.
Qed.

Lemma distinctUntilChanged_length {A : Type} (compare : A -> A -> bool) xs :
  length (distinctUntilChanged compare xs) ≤ length xs.
Proof.
  destruct xs as [|x r]; simpl; [lia|].
  pose proof (distinct_after_length compare x r). lia.
Qed.

Lemma filterNil_select_length name states :
  length (filterNil (select name states)) = length (List.filter (present name) states).
Proof.
  unfold filterNil, select, present.
  induction states as [|st r IH]; [done|]. simpl.
  destruct (obj_get name st) as [[]|]; simpl; first [exact IH | f_equal; exact IH].
Qed.


Lemma controlChanges_length name path states :
  length (controlChanges name path states) ≤ length (List.filter (present name) states).
Proof.
  rewrite <- filterNil_select_length. unfold controlChanges.
  destruct path as [p|]; [destruct (String.eqb p EmptyString)|];
    etrans; try apply distinctUntilChanged_length; by rewrite ?length_map.
Qed.

(** C7.  The streams derived from the store.  [controlChanges(name, path)]
    emits nothing for the store states in which [name] has no entry: it is
    the same stream as over the states that have one, and has at most one
    emission per such state.  No two consecutive emissions of it (snapshots,
    or path-resolved nodes when a path is given) are deep-equal, and the
    value, validity, dirty, disabled and errors streams emit, in order, the
    requested field of exactly those nodes. *)
Theorem C7_derived_streams_skip_absent_and_repeats
    (name : string) (path : option string)
    (states : list (list (string * JsValue))) :
  let deep_equal := fun a b => isEqual (Some a) (Some b) in
  let nodes := controlChanges name path states in
  nodes = controlChanges name path (List.filter (present name) states)
  ∧ length nodes ≤ length (List.filter (present name) states)
  ∧ (∀ n, changes deep_equal (take n nodes) = true)
  ∧ tracks "value" (valueChanges_of name path states) nodes
  ∧ tracks "valid" (validityChanges name path states) nodes
  ∧ tracks "dirty" (dirtyChanges name path states) nodes
  ∧ tracks "disabled" (disableChanges name path states) nodes
  ∧ tracks "errors" (errorsChanges name path states) nodes.
Proof.
  intros deep_equal nodes. split; [|split; [|split]].
  - subst nodes. unfold controlChanges. by rewrite <- filterNil_select_present.
  - apply controlChanges_length.
  - intros n. apply changes_take. subst nodes. unfold controlChanges.
    destruct path as [p|]; [destruct (String.eqb p EmptyString)|];
      apply distinctUntilChanged_changes.
  - repeat split; apply pluck_tracks.
Qed.

(* ===================================================================== *)
(** ** Running method bodies *)
(* ===================================================================== *)

#[local] Arguments JSON.stringify : simpl never.
#[local] Arguments JSON.parse : simpl never.

Ltac unfold_monad :=
  unfold mbind, M_bind, mret, M_ret, gets, modify, when, throw in *.

Lemma for_each_modify {A : Type} (xs : list A) (f : A -> World -> World) w :
  for_each xs (fun x => modify (f x)) w = (Normal tt, foldl (fun w x => f x w) w xs).
Proof.
  revert w. induction xs as [|x r IH]; intros w; [done|].
  cbn [for_each foldl]. unfold_monad. apply IH.
Qed.

Lemma removeInitialValue_run keys w :
  removeInitialValue keys w
  = (Normal tt,
     with_initialValues
       (foldl (fun m name => delete name m) (initialValues w) (coerceArray keys)) w).
Proof.
  unfold removeInitialValue. rewrite for_each_modify. f_equal.
  generalize (coerceArray keys) as names. intros names. revert w.
  induction names as [|n r IH]; intros w; [by destruct w|].
  cbn [foldl]. rewrite IH. reflexivity.
Qed.

Lemma lookup_foldl_delete {V : Type} (m : gmap string V) names name :
  foldl (fun m n => delete n m) m names !! name
  = if decide (name ∈ names) then None else m !! name.
Proof.
  revert m. induction names as [|n r IH]; intros m; cbn [foldl].
  - destruct (decide _) as [H|]; [by apply elem_of_nil in H | done].
  - rewrite IH. destruct (decide (name = n)) as [->|Hne].
    + rewrite lookup_delete_eq.
      destruct (decide (n ∈ n :: r)) as [|Hn]; [by destruct (decide (n ∈ r))|].
      exfalso. apply Hn, elem_of_cons. by left.
    + rewrite lookup_delete_ne by done.
      destruct (decide (name ∈ r)) as [Hr|Hr], (decide (name ∈ n :: r)) as [Hnr|Hnr];
        try done; exfalso.
      * apply Hnr, elem_of_cons. by right.
      * apply elem_of_cons in Hnr as [?|?]; done.
Qed.

Lemma getFromStorage_reads key w : (getFromStorage key w).2 = w.
Proof.
  unfold getFromStorage, localStorage_getItem. unfold_monad.
  destruct (runtime w); [|done]. by destruct (JSON.parse _).
Qed.

Lemma getFromStorage_runtime key w w' :
  runtime w = runtime w' → (getFromStorage key w).1 = (getFromStorage key w').1.
Proof.
  intros H. unfold getFromStorage, localStorage_getItem. unfold_monad.
  rewrite H. destruct (runtime w'); [|done]. by destruct (JSON.parse _).
Qed.

(** The first two steps of [clear]. *)
Lemma clear_run config keys w ls :
  runtime w = Browser ls →
  clear config keys w
  = let state := if given keys then Imports.deleteControl (store w) (coerceArray keys) else [] in
    (Normal tt,
     with_initialValues
       (foldl (fun m name => delete name m) (initialValues w) (coerceArray keys))
       (with_runtime (Browser (<[storage_key config := JSON.stringify (JObj state)]> ls))
          (with_store state w))).
Proof.
  intros Hr. unfold clear, NgFormsManager.deleteControl, store_set, removeFromStorage,
    localStorage_setItem.
  unfold_monad. destruct (given keys); cbn; rewrite Hr; by rewrite removeInitialValue_run.
Qed.

(** C10.  [clear()] with no name leaves every captured initial value in
    place, so [initialValueChanged(name)] goes on comparing against it; a
    [clear(name)] that returns has removed the captured initial values of
    exactly the names it was given (a single name or a collection), and
    where storage exists [clear] does return. *)
Theorem C10_clear_without_name_keeps_initial_values (config : Config) (w : World) :
  (initialValues (clear config None w).2 = initialValues w
   ∧ ∀ name current,
       initialValueChanged name (clear config None w).2 current
       = initialValueChanged name w current)
  ∧ (∀ keys, (clear config (Some keys) w).1 = Normal tt →
       ∀ name, initialValues (clear config (Some keys) w).2 !! name
               = if decide (name ∈ coerceArray (Some keys)) then None
                 else initialValues w !! name)
  ∧ (∀ keys ls, runtime w = Browser ls → (clear config keys w).1 = Normal tt).
Proof.
  assert (Hnone : initialValues (clear config None w).2 = initialValues w).
  { destruct (runtime w) as [ls|] eqn:Hr.
    - by rewrite (clear_run _ _ _ ls Hr).
    - unfold clear, store_set, removeFromStorage, localStorage_setItem.
      unfold_monad. cbn. by rewrite Hr. }
  split; [split; [exact Hnone|]|split].
  - intros name current. unfold initialValueChanged. by rewrite Hnone.
  - intros keys Hret name. destruct (runtime w) as [ls|] eqn:Hr.
    + rewrite (clear_run _ _ _ ls Hr). cbn. apply lookup_foldl_delete.
    + exfalso. revert Hret.
      unfold clear, NgFormsManager.deleteControl, store_set, removeFromStorage,
        localStorage_setItem.
      unfold_monad. destruct (given (Some keys)); cbn; by rewrite Hr.
  - intros keys ls Hr. by rewrite (clear_run _ _ _ ls Hr).
Qed.

(** C8, as the code has it.  Where durable storage exists: [clear()] with
    no name (or with the empty string, which [name ? ... : ...] takes for no
    name) resets the store to the empty mapping and writes the serialized
    empty mapping under the configured key; [clear(name)] with a non-empty
    name or a collection of names removes exactly those names' entries from
    the store and writes the serialized resulting store. *)
Theorem C8_clear_resets_or_removes_then_persists
    (config : Config) (w : World) (ls : gmap string string) :
  runtime w = Browser ls →
  (∀ keys, given keys = false →
     (clear config keys w).1 = Normal tt
     ∧ store (clear config keys w).2 = []
     ∧ runtime (clear config keys w).2 = Browser (<[storage_key config := "{}"]> ls))
  ∧ (∀ keys, given keys = true →
     let w' := (clear config keys w).2 in
     (clear config keys w).1 = Normal tt
     ∧ (∀ k, obj_get k (store w')
             = if decide (k ∈ coerceArray keys) then None else obj_get k (store w))
     ∧ runtime w' = Browser (<[storage_key config := JSON.stringify (JObj (store w'))]> ls)).
Proof.
  intros Hr. split; intros keys Hg; rewrite (clear_run _ _ _ ls Hr), Hg; cbn.
  - done.
  - split; [done|]. split; [|done]. intros k. apply obj_get_deleteControl.
Qed.

(** C3 (the defect).  Where there is no [localStorage], [clear] throws a
    [ReferenceError], with or without a name, although the per-change
    writer [updateStorage] is guarded by [isBrowser()] and skips. *)
Theorem C3_clear_throws_without_storage
    (config : Config) (keys : option FormKeys) (w : World) :
  runtime w = Server →
  (clear config keys w).1 = Abrupt ReferenceError
  ∧ ∀ name value cfg, updateStorage name value cfg w = (Normal tt, w).
Proof.
  intros Hr. split.
  - unfold clear, NgFormsManager.deleteControl, store_set, removeFromStorage,
      localStorage_setItem.
    unfold_monad. destruct (given keys); cbn; by rewrite Hr.
  - intros name value cfg. unfold updateStorage, isBrowser. unfold_monad.
    cbn. by rewrite Hr.
Qed.

(** C2, as the code has it.  Where [localStorage] exists, [getFromStorage]
    returns the empty mapping when the key is absent (or holds the empty
    string) and the parsed value when the stored string is well-formed
    JSON, and throws a [SyntaxError] when the stored string does not parse;
    it never writes. *)
Theorem C2_getFromStorage_parses_or_throws
    (key : string) (w : World) (ls : gmap string string) :
  runtime w = Browser ls →
  (ls !! key = None ∨ ls !! key = Some EmptyString →
     getFromStorage key w = (Normal (JObj []), w))
  ∧ (∀ text v, ls !! key = Some text → text ≠ EmptyString →
       JSON.parse text = Some v → getFromStorage key w = (Normal v, w))
  ∧ (∀ text, ls !! key = Some text → text ≠ EmptyString →
       JSON.parse text = None → getFromStorage key w = (Abrupt SyntaxError, w)).
Proof.
  intros Hr. unfold getFromStorage, localStorage_getItem. unfold_monad. rewrite Hr.
  split; [|split].
  - intros [-> | ->]; reflexivity.
  - intros text v -> Hne Hp.
    destruct (String.eqb_spec text EmptyString); [done|]. by rewrite Hp.
  - intros text -> Hne Hp.
    destruct (String.eqb_spec text EmptyString); [done|]. by rewrite Hp.
Qed.

(* ===================================================================== *)
(** ** The statements of [upsert] *)
(* ===================================================================== *)

Lemma with_initialValues_id w : with_initialValues (initialValues w) w = w.
Proof. by destruct w. Qed.

Lemma with_runtime_id w : with_runtime (runtime w) w = w.
Proof. by destruct w. Qed.

Lemma capture_initial_value_run name control mergedConfig w :
  ∃ iv, capture_initial_value name control mergedConfig w
        = (Normal tt, with_initialValues iv w).
Proof.
  unfold capture_initial_value, setInitialValue. unfold_monad.
  destruct (_ && _); eexists; [reflexivity|].
  by rewrite with_initialValues_id.
Qed.

Lemma rehydrate_skipped name control inline mergedConfig w :
  isBrowser w = false ∨ UpsertConfig.persistState inline ≠ Some true
  ∨ hasControl name None w = true →
  rehydrate name control inline mergedConfig w = (Normal tt, w).
Proof.
  intros H. unfold rehydrate. unfold_monad.
  destruct H as [-> | [H | ->]]; [done| |].
  - rewrite bool_decide_eq_false_2 by done. by rewrite andb_false_r.
  - by rewrite andb_false_r.
Qed.


Lemma updateStorage_frame name value cfg w :
  ∃ r, (updateStorage name value cfg w).2 = with_runtime r w.
Proof.
  unfold updateStorage. unfold_monad.
  destruct (isBrowser w && persistState cfg); [|exists (runtime w); by rewrite with_runtime_id].
  pose proof (getFromStorage_reads (storage_key cfg) w) as Hw.
  destruct (getFromStorage (storage_key cfg) w) as [[blob|e] w']; simpl in Hw; subst w';
    [|exists (runtime w); by rewrite with_runtime_id].
  unfold assign, localStorage_setItem. unfold_monad.
  destruct blob; try (exists (runtime w); by rewrite with_runtime_id);
    (destruct (runtime w) eqn:Hr;
     [eexists; reflexivity | exists (runtime w); by rewrite with_runtime_id]).
Qed.

Lemma updateStorage_skips name value cfg w :
  isBrowser w = false ∨ persistState cfg = false →
  updateStorage name value cfg w = (Normal tt, w).
Proof.
  intros H. unfold updateStorage. unfold_monad.
  destruct H as [-> | ->]; [done | by rewrite andb_false_r].
Qed.

Lemma updateStorage_writes name value cfg w ls blob :
  runtime w = Browser ls →
  persistState cfg = true →
  (getFromStorage (storage_key cfg) w).1 = Normal (JObj blob) →
  updateStorage name value cfg w
  = (Normal tt,
     with_runtime
       (Browser (<[storage_key cfg :=
                   JSON.stringify (JObj (obj_set name (filterControlKeys value) blob))]> ls))
       w).
Proof.
  intros Hr Hp Hblob. unfold updateStorage. unfold_monad.
  unfold isBrowser. rewrite Hr, Hp. cbn [andb].
  pose proof (getFromStorage_reads (storage_key cfg) w) as Hw.
  destruct (getFromStorage (storage_key cfg) w) as [c w'].
  simpl in Hblob, Hw. subst c w'. cbn [assign]. unfold localStorage_setItem.
  unfold_monad. by rewrite Hr.
Qed.

Lemma on_change_run name control cfg w :
  on_change name control cfg w
  = updateStorage name (toStore name (deref control w)) cfg
      (with_store (obj_set name (toStore name (deref control w)) (store w)) w).
Proof. reflexivity. Qed.

Lemma synchronise_fresh name control mergedConfig w :
  hasControl name None w = false →
  synchronise name control mergedConfig w = on_change name control mergedConfig w.
Proof. intros H. unfold synchronise. unfold_monad. by rewrite H. Qed.

Lemma synchronise_registered name control mergedConfig w :
  hasControl name None w = true →
  ∃ h, synchronise name control mergedConfig w = (Normal tt, with_heap h w).
Proof.
  intros H. unfold synchronise, toControlValue. unfold_monad. rewrite H.
  destruct (match getControl name None w with Some (JObj ps) => _ | _ => false end);
    eexists; reflexivity.
Qed.

Lemma register_run name control mergedConfig w :
  register name control mergedConfig w
  = (Normal tt,
     with_instances (<[name := control]> (instances w))
       (with_valueChanges (<[name := length (subscriptions w)]> (valueChanges w))
          (with_subscriptions
             (subscriptions w ++
                [{| subject := name; source := control; settings := mergedConfig;
                    closed := false |}]) w))).
Proof. reflexivity. Qed.

(** [upsert] for a name without a store entry, when nothing is re-hydrated. *)
Lemma upsert_fresh config name control inline w :
  hasControl name None w = false →
  (∀ iv, rehydrate name control inline (merge config inline) (with_initialValues iv w)
         = (Normal tt, with_initialValues iv w)) →
  ∃ iv r,
    let snapshot := toStore name (deref control w) in
    let w1 := with_initialValues iv w in
    let w3 := with_store (obj_set name snapshot (store w)) w1 in
    updateStorage name snapshot (merge config inline) w3
      = ((updateStorage name snapshot (merge config inline) w3).1, with_runtime r w3)
    ∧ upsert config name control inline w
      = match (updateStorage name snapshot (merge config inline) w3).1 with
        | Normal _ =>
            register name control (merge config inline) (with_runtime r w3)
        | Abrupt e => (Abrupt e, with_runtime r w3)
        end.
Proof.
  intros Hfresh Hskip.
  destruct (capture_initial_value_run name control (merge config inline) w) as [iv Hcap].
  destruct (updateStorage_frame name (toStore name (deref control w)) (merge config inline)
              (with_store (obj_set name (toStore name (deref control w)) (store w))
                          (with_initialValues iv w))) as [r Hr].
  exists iv, r. cbv zeta. split.
  - rewrite <- Hr. by destruct (updateStorage _ _ _ _).
  - unfold upsert. unfold_monad. rewrite Hcap, Hskip.
    rewrite synchronise_fresh by exact Hfresh. rewrite on_change_run.
    change (deref control (with_initialValues iv w)) with (deref control w).
    change (store (with_initialValues iv w)) with (store w).
    destruct (updateStorage _ _ _ _) as [[[]|e] w4] eqn:E; simpl in Hr; by subst w4.
Qed.

Lemma rehydrate_nothing config name control inline w :
  nothing_to_rehydrate config name inline w →
  ∀ iv, rehydrate name control inline (merge config inline) (with_initialValues iv w)
        = (Normal tt, with_initialValues iv w).
Proof.
  intros [H | [H | (blob & entry & Hblob & Hentry & Hfalsy)]] iv.
  - apply rehydrate_skipped. by left.
  - apply rehydrate_skipped. right. by left.
  - unfold rehydrate. unfold_monad.
    destruct (_ && _ && _); [|done].
    pose proof (getFromStorage_reads (storage_key (merge config inline))
                  (with_initialValues iv w)) as Hw.
    pose proof (getFromStorage_runtime (storage_key config) (with_initialValues iv w) w
                  eq_refl) as Hsame.
    change (storage_key (merge config inline)) with (storage_key config) in *.
    destruct (getFromStorage (storage_key config) (with_initialValues iv w)) as [c w'].
    simpl in Hw, Hsame. subst w'. rewrite Hsame, Hblob.
    destruct blob; cbn [prop] in *; unfold_monad; simpl in Hentry;
      try discriminate; injection Hentry as <-; try done.
    destruct (obj_get name props) as [persisted|]; [|done].
    simpl in Hfalsy. by rewrite Hfalsy.
Qed.

(** C9.  Re-hydration looks at the call-site [persistState] only.  When the
    flag is on in the process-wide configuration and absent from the call,
    the re-hydration statement of [upsert] does nothing in any world (it
    does not read the blob, so not even a corrupt one can make it throw),
    and for a name without a store entry the store gets the plain snapshot
    of the control, whatever the blob holds.  Persistence itself goes by the
    merged flag, which is on: where storage exists and holds a JSON object,
    [upsert] returns having written the stripped snapshot under the name,
    the subscription it installs carries the merged configuration, and its
    callback writes in the same way on every later change. *)
Theorem C9_rehydration_reads_call_site_flag_only
    (config : Config) (name : string) (control : nat)
    (inline : UpsertConfig.t) (w : World) :
  UpsertConfig.persistState inline = None →
  persistState config = true →
  hasControl name None w = false →
  let mergedConfig := merge config inline in
  let snapshot := toStore name (deref control w) in
  let result := upsert config name control inline w in
  persistState mergedConfig = true
  ∧ (∀ w0, rehydrate name control inline mergedConfig w0 = (Normal tt, w0))
  ∧ getControl name None result.2 = Some snapshot
  ∧ (∀ ls blob,
       runtime w = Browser ls →
       (getFromStorage (storage_key config) w).1 = Normal (JObj blob) →
       result.1 = Normal tt
       ∧ runtime result.2
         = Browser (<[storage_key config :=
                      JSON.stringify
                        (JObj (obj_set name (filterControlKeys snapshot) blob))]> ls)
       ∧ subscriptions result.2 !! length (subscriptions w)
         = Some {| subject := name; source := control; settings := mergedConfig;
                   closed := false |})
  ∧ (∀ w2 ls blob,
       runtime w2 = Browser ls →
       (getFromStorage (storage_key config) w2).1 = Normal (JObj blob) →
       runtime (on_change name control mergedConfig w2).2
       = Browser (<[storage_key config :=
                    JSON.stringify
                      (JObj (obj_set name
                               (filterControlKeys (toStore name (deref control w2)))
                               blob))]> ls)).
Proof.
  intros Hinline Hconfig Hfresh mergedConfig snapshot result.
  assert (Hmerged : persistState mergedConfig = true).
  { subst mergedConfig. unfold merge. simpl. by rewrite Hinline. }
  assert (Hskip : ∀ w0, rehydrate name control inline mergedConfig w0 = (Normal tt, w0)).
  { intros w0. apply rehydrate_skipped. right. left. by rewrite Hinline. }
  destruct (upsert_fresh config name control inline w Hfresh (fun iv => Hskip _))
    as (iv & r & Hframe & Hrun).
  cbv zeta in Hframe, Hrun. fold snapshot mergedConfig in Hframe, Hrun.
  split; [exact Hmerged|]. split; [exact Hskip|]. split; [|split].
  - unfold result. rewrite Hrun. destruct (updateStorage _ _ _ _).1 as [[]|e];
      [rewrite register_run|]; cbn; apply obj_get_set_eq.
  - intros ls blob Hr Hblob.
    set (w3 := with_store (obj_set name snapshot (store w)) (with_initialValues iv w)) in *.
    assert (Hwrite := updateStorage_writes name snapshot mergedConfig w3 ls blob Hr Hmerged).
    rewrite (getFromStorage_runtime _ w3 w eq_refl) in Hwrite.
    specialize (Hwrite Hblob). rewrite Hwrite in Hframe, Hrun. simpl in Hframe, Hrun.
    injection Hframe as Hw4. unfold result. rewrite Hrun, register_run, <- Hw4. cbn.
    split; [done|]. split; [done|].
    rewrite lookup_app_r by done. by rewrite Nat.sub_diag.
  - intros w2 ls blob Hr Hblob. rewrite on_change_run.
    set (w3 := with_store _ w2).
    assert (Hwrite := updateStorage_writes name (toStore name (deref control w2))
                        mergedConfig w3 ls blob Hr Hmerged).
    rewrite (getFromStorage_runtime _ w3 w2 eq_refl) in Hwrite.
    by rewrite (Hwrite Hblob).
Qed.


(* ===================================================================== *)
(** ** Deep merge *)
(* ===================================================================== *)


Lemma obj_get_elem k ps v : obj_get k ps = Some v → k ∈ map fst ps.
Proof.
  induction ps as [|[k0 v0] r IH]; simpl; [done|].
  destruct (String.eqb_spec k k0) as [->|Hne]; [intros _; apply elem_of_cons; by left|].
  intros H. apply elem_of_cons. right. by apply IH.
Qed.

Section MergeProps.
Variable rec : JsValue -> JsValue -> JsValue.


End MergeProps.




Lemma toStore_object name control : ∃ ps, toStore name control = JObj ps.
Proof. destruct control; eexists; reflexivity. Qed.




(* ===================================================================== *)
(** ** Subscriptions and events *)
(* ===================================================================== *)

Lemma writers_spec name w h :
  In h (writers name w)
  ↔ ∃ s, subscriptions w !! h = Some s ∧ closed s = false ∧ subject s = name.
Proof.
  unfold writers. rewrite List.filter_In, in_seq. split.
  - intros [_ H]. destruct (subscriptions w !! h) as [s|]; [|done].
    apply andb_prop in H as [Hc Hn]. exists s. split; [done|].
    split; [by apply negb_true_iff | by destruct (String.eqb_spec (subject s) name)].
  - intros (s & Hs & Hc & Hn). split.
    + apply lookup_lt_Some in Hs. lia.
    + by rewrite Hs, Hc, Hn, String.eqb_refl.
Qed.

Lemma writers_nil name w :
  writers name w = []
  ↔ ∀ h s, subscriptions w !! h = Some s → closed s = false → subject s ≠ name.
Proof.
  split.
  - intros Hnil h s Hs Hc Hn.
    assert (Hin : In h (writers name w)) by (apply writers_spec; eauto).
    by rewrite Hnil in Hin.
  - intros H. destruct (writers name w) as [|h r] eqn:E; [done|].
    assert (Hin : In h (writers name w)) by (rewrite E; by left).
    apply writers_spec in Hin as (s & Hs & Hc & Hn). by destruct (H h s).
Qed.

Lemma only_recorded_spec name w h s :
  only_recorded name w = true →
  subscriptions w !! h = Some s → closed s = false → subject s = name →
  valueChanges w !! name = Some h.
Proof.
  unfold only_recorded. rewrite forallb_forall. intros H Hs Hc Hn.
  assert (Hin : In h (writers name w)) by (apply writers_spec; eauto).
  apply H in Hin. by apply bool_decide_eq_true in Hin.
Qed.

Lemma react_subscriptions e w : subscriptions (react e w).2 = subscriptions w.
Proof.
  destruct e as [control now|handle]; [done|].
  unfold react. unfold_monad.
  destruct (subscriptions w !! handle) as [s|]; [|done].
  destruct (closed s); [done|]. rewrite on_change_run.
  destruct (updateStorage_frame (subject s) (toStore (subject s) (deref (source s) w))
              (settings s)
              (with_store (obj_set (subject s) (toStore (subject s) (deref (source s) w))
                             (store w)) w)) as [r ->].
  done.
Qed.

Lemma react_store name e w :
  writers name w = [] →
  obj_get name (store (react e w).2) = obj_get name (store w).
Proof.
  intros Hsilent. destruct e as [control now|handle]; [done|].
  unfold react. unfold_monad.
  destruct (subscriptions w !! handle) as [s|] eqn:Hs; [|done].
  destruct (closed s) eqn:Hc; [done|]. rewrite on_change_run.
  destruct (updateStorage_frame (subject s) (toStore (subject s) (deref (source s) w))
              (settings s)
              (with_store (obj_set (subject s) (toStore (subject s) (deref (source s) w))
                             (store w)) w)) as [r ->].
  cbn. apply obj_get_set_ne. by eapply writers_nil.
Qed.

Lemma writers_same name w w' :
  subscriptions w' = subscriptions w → writers name w' = writers name w.
Proof. unfold writers. by intros ->. Qed.

(** Once no open subscription writes the entry of [name], nothing that
    happens to the live controls changes it. *)
Lemma run_events_silent name es : ∀ w,
  writers name w = [] →
  obj_get name (store (run_events es w)) = obj_get name (store w).
Proof.
  induction es as [|e es IH]; intros w Hsilent; [done|].
  unfold run_events. cbn [foldl]. fold (run_events es (react e w).2).
  rewrite IH.
  - by apply react_store.
  - by rewrite (writers_same name w _ (react_subscriptions e w)).
Qed.

Lemma shut_shut s : shut (shut s) = shut s.
Proof. done. Qed.

(** The loop of [unsubscribe()] over the recorded subscriptions. *)
Lemma for_each_close (l : list (string * nat)) : ∀ w,
  for_each l (fun entry => close entry.2;; destroy_next "$$ALL") w
  = (Normal tt,
     with_destroyed (destroyed w ++ replicate (length l) "$$ALL")
       (with_subscriptions
          (foldl (fun subs entry => alter shut entry.2 subs) (subscriptions w) l) w)).
Proof.
  induction l as [|[n h] r IH]; intros w.
  - cbn. rewrite app_nil_r. by destruct w.
  - cbn [for_each]. unfold close, destroy_next. unfold_monad. rewrite IH.
    cbn. unfold with_destroyed, with_subscriptions. cbn. by rewrite <- app_assoc.
Qed.

Lemma foldl_close_lookup (l : list (string * nat)) :
  ∀ (subs : list Subscription) (h : nat),
  foldl (fun subs entry => alter shut entry.2 subs) subs l !! h
  = (fun s => if bool_decide (h ∈ l.*2) then shut s else s) <$> subs !! h.
Proof.
  induction l as [|[n h0] r IH]; intros subs h.
  - cbn. by destruct (subs !! h).
  - cbn [foldl]. rewrite IH. cbn [snd fmap list_fmap].
    destruct (decide (h0 = h)) as [->|Hne].
    + rewrite list_lookup_alter_eq. destruct (subs !! h) as [s|]; [|done]. cbn.
      rewrite (bool_decide_eq_true_2 (h ∈ h :: r.*2)) by (apply elem_of_cons; by left).
      by destruct (bool_decide _).
    + rewrite list_lookup_alter_ne by done. destruct (subs !! h) as [s|]; [|done]. cbn.
      f_equal. destruct (decide (h ∈ r.*2)) as [Hin|Hout].
      * rewrite !bool_decide_eq_true_2; [done | apply elem_of_cons; by right | done].
      * rewrite !bool_decide_eq_false_2; [done | | done].
        rewrite elem_of_cons. intros [->|?]; done.
Qed.

Lemma unsubscribe_all_run keys w :
  given keys = false →
  unsubscribe keys w
  = (Normal tt,
     with_instances ∅
       (with_valueChanges ∅
          (with_destroyed
             (destroyed w ++ replicate (size (valueChanges w)) "$$ALL")
             (with_subscriptions
                (foldl (fun subs entry => alter shut entry.2 subs) (subscriptions w)
                       (map_to_list (valueChanges w))) w)))).
Proof.
  intros Hg. unfold unsubscribe. rewrite Hg. unfold_monad.
  rewrite for_each_close. by rewrite length_map_to_list.
Qed.

Lemma unsubscribe_one_run name w :
  name ≠ EmptyString →
  unsubscribe (Some (OneName name)) w
  = (Normal tt,
     with_destroyed (destroyed w ++ [name])
       (with_instances (delete name (instances w))
          (with_valueChanges (delete name (valueChanges w))
             (with_subscriptions
                (match valueChanges w !! name with
                 | Some h => alter shut h (subscriptions w)
                 | None => subscriptions w
                 end) w)))).
Proof.
  intros Hne. unfold unsubscribe. cbn [given coerceArray for_each].
  destruct (String.eqb_spec name EmptyString); [done|]. cbn [negb].
  unfold close, destroy_next. unfold_monad.
  destruct (valueChanges w !! name); cbn; by destruct w.
Qed.

Lemma controlDestroyed_all name n :
  controlDestroyed name (replicate n "$$ALL") = replicate n "$$ALL".
Proof.
  unfold controlDestroyed. induction n as [|n IH]; [done|].
  cbn [replicate]. rewrite filter_cons_True by (by right). by rewrite IH.
Qed.

Lemma recorded_handle (m : gmap string nat) name h :
  m !! name = Some h → h ∈ (map_to_list m).*2.
Proof.
  intros H. apply elem_of_map_to_list in H.
  apply list_elem_of_fmap. by exists (name, h).
Qed.

(** C5, as the code has it.  [unsubscribe(name)] for a (non-empty) name
    returns with the recorded subscription of the name cancelled and the
    name gone from both registries, and signals the name once, so that
    [controlDestroyed(name)] emits exactly once for the call.  If the
    recorded subscription was the only open one writing the entry of the
    name, no later change of a live control updates that entry.
    [unsubscribe()] with no name (or the empty string) cancels every
    recorded subscription and empties both registries, with the same
    consequence for every such name, and signals the "all" sentinel once per
    recorded subscription: [controlDestroyed(name)] emits as many times as
    there were registered names. *)
Theorem C5_unsubscribe_cancels_and_signals (w : World) :
  (∀ name,
     name ≠ EmptyString →
     let result := unsubscribe (Some (OneName name)) w in
     result.1 = Normal tt
     ∧ valueChanges result.2 !! name = None
     ∧ instances result.2 !! name = None
     ∧ (∀ handle s,
          valueChanges w !! name = Some handle →
          subscriptions w !! handle = Some s →
          subscriptions result.2 !! handle = Some (shut s))
     ∧ (only_recorded name w = true →
        writers name result.2 = []
        ∧ ∀ events,
            obj_get name (store (run_events events result.2)) = obj_get name (store w))
     ∧ destroyed result.2 = destroyed w ++ [name]
     ∧ controlDestroyed name (drop (length (destroyed w)) (destroyed result.2)) = [name])
  ∧ (∀ keys,
     given keys = false →
     let result := unsubscribe keys w in
     result.1 = Normal tt
     ∧ valueChanges result.2 = ∅
     ∧ instances result.2 = ∅
     ∧ (∀ name handle s,
          valueChanges w !! name = Some handle →
          subscriptions w !! handle = Some s →
          subscriptions result.2 !! handle = Some (shut s))
     ∧ (∀ name,
          only_recorded name w = true →
          writers name result.2 = []
          ∧ ∀ events,
              obj_get name (store (run_events events result.2)) = obj_get name (store w))
     ∧ destroyed result.2 = destroyed w ++ replicate (size (valueChanges w)) "$$ALL"
     ∧ ∀ name,
         controlDestroyed name (drop (length (destroyed w)) (destroyed result.2))
         = replicate (size (valueChanges w)) "$$ALL").
Proof.
  split.
  - intros name Hne result. unfold result. rewrite unsubscribe_one_run by exact Hne.
    cbn [fst snd valueChanges instances subscriptions destroyed store
         with_destroyed with_instances with_valueChanges with_subscriptions].
    split; [done|]. split; [apply lookup_delete_eq|]. split; [apply lookup_delete_eq|].
    split; [|split; [|split]].
    + intros handle s -> Hs. by rewrite list_lookup_alter_eq, Hs.
    + intros Honly.
      assert (Hsilent : writers name
                (with_destroyed (destroyed w ++ [name])
                   (with_instances (delete name (instances w))
                      (with_valueChanges (delete name (valueChanges w))
                         (with_subscriptions
                            (match valueChanges w !! name with
                             | Some h => alter shut h (subscriptions w)
                             | None => subscriptions w
                             end) w)))) = []).
      { apply writers_nil. cbn. intros h s' Hs' Hc Hn.
        destruct (valueChanges w !! name) as [h0|] eqn:Hrec.
        - destruct (decide (h0 = h)) as [->|Hne0].
          + rewrite list_lookup_alter_eq in Hs'.
            destruct (subscriptions w !! h); [|done]. by injection Hs' as <-.
          + rewrite list_lookup_alter_ne in Hs' by done.
            pose proof (only_recorded_spec name w h s' Honly Hs' Hc Hn) as H.
            rewrite Hrec in H. by injection H.
        - pose proof (only_recorded_spec name w h s' Honly Hs' Hc Hn) as H.
          by rewrite Hrec in H. }
      split; [exact Hsilent|]. intros events. by rewrite run_events_silent.
    + done.
    + rewrite drop_app_length. unfold controlDestroyed.
      by rewrite filter_cons_True by (by left).
  - intros keys Hg result. unfold result. rewrite unsubscribe_all_run by exact Hg.
    cbn [fst snd valueChanges instances subscriptions destroyed store
         with_destroyed with_instances with_valueChanges with_subscriptions].
    split; [done|]. split; [done|]. split; [done|]. split; [|split; [|split]].
    + intros name handle s Hrec Hs. rewrite foldl_close_lookup, Hs. cbn.
      by rewrite bool_decide_eq_true_2 by (by eapply recorded_handle).
    + intros name Honly.
      assert (Hsilent : writers name
                (with_instances ∅
                   (with_valueChanges ∅
                      (with_destroyed
                         (destroyed w ++ replicate (size (valueChanges w)) "$$ALL")
                         (with_subscriptions
                            (foldl (fun subs entry => alter shut entry.2 subs)
                                   (subscriptions w) (map_to_list (valueChanges w)))
                            w)))) = []).
      { apply writers_nil. cbn. intros h s' Hs' Hc Hn.
        rewrite foldl_close_lookup in Hs'.
        destruct (subscriptions w !! h) as [s|] eqn:Hs; [|done]. cbn in Hs'.
        destruct (decide (h ∈ (map_to_list (valueChanges w)).*2)) as [Hin|Hout].
        - rewrite bool_decide_eq_true_2 in Hs' by done. by injection Hs' as <-.
        - rewrite bool_decide_eq_false_2 in Hs' by done. injection Hs' as ->.
          apply Hout. eapply recorded_handle.
          by apply (only_recorded_spec name w h s'). }
      split; [exact Hsilent|]. intros events. by rewrite run_events_silent.
    + done.
    + intros name. rewrite drop_app_length. apply controlDestroyed_all.
Qed.

Lemma rehydrate_subscriptions name control inline mergedConfig w :
  subscriptions (rehydrate name control inline mergedConfig w).2 = subscriptions w.
Proof.
  unfold rehydrate. unfold_monad. destruct (_ && _ && _); [|done].
  pose proof (getFromStorage_reads (storage_key mergedConfig) w) as Hw.
  destruct (getFromStorage (storage_key mergedConfig) w) as [[blob|e] w'];
    simpl in Hw; subst w'; [|done].
  destruct blob; cbn [prop]; unfold_monad; try done.
  destruct (obj_get name props) as [persisted|]; [|done].
  by destruct (truthy persisted).
Qed.

Lemma synchronise_subscriptions name control mergedConfig w :
  subscriptions (synchronise name control mergedConfig w).2 = subscriptions w.
Proof.
  destruct (hasControl name None w) eqn:Hreg.
  - by destruct (synchronise_registered name control mergedConfig w Hreg) as [h ->].
  - rewrite synchronise_fresh by exact Hreg. rewrite on_change_run.
    by destruct (updateStorage_frame name (toStore name (deref control w)) mergedConfig
                   (with_store (obj_set name (toStore name (deref control w)) (store w)) w))
      as [r ->].
Qed.

Lemma writers_snoc name w w' s :
  subscriptions w' = subscriptions w ++ [s] →
  subject s = name → closed s = false →
  writers name w' = writers name w ++ [length (subscriptions w)].
Proof.
  intros Hsubs Hname Hopen. unfold writers.
  rewrite Hsubs, length_app, Nat.add_1_r, seq_S, List.filter_app. f_equal.
  - apply List.filter_ext_in. intros h Hin. apply in_seq in Hin.
    by rewrite lookup_app_l by lia.
  - cbn [List.filter plus]. rewrite lookup_app_r by done.
    by rewrite Nat.sub_diag; cbn; rewrite Hopen, Hname, String.eqb_refl.
Qed.

(** C1 (the defect).  An [upsert] that returns cancels nothing: every
    subscription is afterwards as it was before, and one more, open and
    writing the entry of [name], has been created and recorded for [name]
    in place of whatever was recorded.  So the open writers of the entry
    are those there were plus the new one, and a second [upsert] of a name
    leaves two. *)
Theorem C1_upsert_leaves_replaced_subscription_open
    (config : Config) (name : string) (control : nat)
    (inline : UpsertConfig.t) (w : World) :
  (upsert config name control inline w).1 = Normal tt →
  let w' := (upsert config name control inline w).2 in
  (∀ handle s, subscriptions w !! handle = Some s → subscriptions w' !! handle = Some s)
  ∧ subscriptions w' !! length (subscriptions w)
    = Some {| subject := name; source := control; settings := merge config inline;
              closed := false |}
  ∧ valueChanges w' !! name = Some (length (subscriptions w))
  ∧ writers name w' = writers name w ++ [length (subscriptions w)].
Proof.
  unfold upsert. unfold_monad.
  destruct (capture_initial_value_run name control (merge config inline) w) as [iv ->].
  pose proof (rehydrate_subscriptions name control inline (merge config inline)
                (with_initialValues iv w)) as H2.
  destruct (rehydrate _ _ _ _ _) as [[[]|e] w2]; [|discriminate].
  pose proof (synchronise_subscriptions name control (merge config inline) w2) as H3.
  destruct (synchronise _ _ _ _) as [[[]|e] w3]; [|discriminate].
  simpl in H2, H3. rewrite register_run. intros _.
  assert (Hsame : subscriptions w3 = subscriptions w) by (by rewrite H3, H2).
  cbn [fst snd]. set (w' := with_instances _ _).
  assert (Hsubs : subscriptions w'
                  = subscriptions w3 ++
                    [{| subject := name; source := control;
                        settings := merge config inline; closed := false |}])
    by reflexivity.
  split; [|split; [|split]].
  - intros handle s Hs. rewrite Hsubs, Hsame. by apply lookup_app_l_Some.
  - rewrite Hsubs, Hsame, lookup_app_r by done. by rewrite Nat.sub_diag.
  - unfold w'. cbn. rewrite Hsame. apply lookup_insert_eq.
  - rewrite (writers_snoc name w3 w' _ Hsubs eq_refl eq_refl).
    by rewrite (writers_same name w w3 Hsame), Hsame.
Qed.

(* ===================================================================== *)
(** ** The methods on sample worlds *)
(* ===================================================================== *)

(** The defect at work: after [upsert('login', a)] and [upsert('login', b)]
    the registry knows only the second subscription, a change of the first
    control still rewrites the entry, and [unsubscribe('login')] leaves the
    first subscription open. *)
Example double_upsert_two_writers :
  writers "login" Example.once = [0]
  ∧ writers "login" Example.twice = [0; 1]
  ∧ valueChanges Example.twice !! "login" = Some 1
  ∧ getControl "login" None
      (run_events [ControlChanged 0 Example.login_retyped; Delivered 0] Example.twice)
    = Some (toStore "login" Example.login_retyped)
  ∧ writers "login" (unsubscribe (Some (OneName "login")) Example.twice).2 = [0].
Proof. vm_compute. repeat split; reflexivity. Qed.

(** The second [upsert] of the sample login form returns and leaves two open
    writers. *)
Lemma C1_upsert_leaves_replaced_subscription_open_witness :
  (upsert Example.config "login" 1 UpsertConfig.empty Example.once).1 = Normal tt
  ∧ writers "login" Example.once = [0]
  ∧ writers "login"
      (upsert Example.config "login" 1 UpsertConfig.empty Example.once).2 = [0; 1].
Proof.
  pose proof (C1_upsert_leaves_replaced_subscription_open Example.config "login" 1
                UpsertConfig.empty Example.once) as H.
  assert (Hret : (upsert Example.config "login" 1 UpsertConfig.empty Example.once).1
                 = Normal tt) by (vm_compute; reflexivity).
  specialize (H Hret). destruct H as (_ & _ & _ & Hwriters).
  vm_compute in Hret, Hwriters. vm_compute.
  split; [exact Hret|]. split; [reflexivity | exact Hwriters].
Defined.

(** C2 fails as stated: a stored string that does not parse makes
    [getFromStorage] throw. *)
Lemma C2_unparsable_blob_throws :
  (getFromStorage "ngFormsManager" Example.corrupt).1 = Abrupt SyntaxError
  ∧ ¬ ∃ v, (getFromStorage "ngFormsManager" Example.corrupt).1 = Normal v.
Proof. split; [reflexivity|]. intros [v H]. vm_compute in H. discriminate H. Qed.

(** Empty storage, a saved login, and a blob that was cut short. *)
Lemma C2_getFromStorage_parses_or_throws_witness :
  getFromStorage "ngFormsManager" Example.browser = (Normal (JObj []), Example.browser)
  ∧ getFromStorage "ngFormsManager" Example.saved
    = (Normal (JObj Example.saved_login), Example.saved)
  ∧ getFromStorage "ngFormsManager" Example.corrupt
    = (Abrupt SyntaxError, Example.corrupt).
Proof.
  pose proof (C2_getFromStorage_parses_or_throws "ngFormsManager" Example.browser ∅)
    as Habsent.
  pose proof (C2_getFromStorage_parses_or_throws "ngFormsManager" Example.saved
Example.saved_storage) as Hparsed.
  pose proof (C2_getFromStorage_parses_or_throws "ngFormsManager" Example.corrupt
Example.corrupt_storage) as Hthrown.
  specialize (Habsent ltac:(vm_compute; reflexivity)).
  specialize (Hparsed ltac:(vm_compute; reflexivity)).
  specialize (Hthrown ltac:(vm_compute; reflexivity)).
  destruct Habsent as (Habsent & _ & _).
  destruct Hparsed as (_ & Hparsed & _).
  destruct Hthrown as (_ & _ & Hthrown).
  assert (Hnone : (∅ : gmap string string) !! "ngFormsManager" = None
                  ∨ (∅ : gmap string string) !! "ngFormsManager" = Some EmptyString)
    by (left; vm_compute; reflexivity).
  specialize (Habsent Hnone).
  specialize (Hparsed Example.saved_text (JObj Example.saved_login)
                ltac:(vm_compute; reflexivity) ltac:(vm_compute; discriminate)
                ltac:(vm_compute; reflexivity)).
  specialize (Hthrown Example.cut_short
                ltac:(vm_compute; reflexivity) ltac:(vm_compute; discriminate)
                ltac:(vm_compute; reflexivity)).
  vm_compute in Habsent, Hparsed, Hthrown. vm_compute.
  split; [exact Habsent|]. split; [exact Hparsed | exact Hthrown].
Defined.

(** [clear()] and [clear('login')] on the sample server. *)
Lemma C3_clear_throws_without_storage_witness :
  (clear Example.config None Example.server).1 = Abrupt ReferenceError
  ∧ (clear Example.config (Some (OneName "login")) Example.server).1
    = Abrupt ReferenceError.
Proof.
  pose proof (C3_clear_throws_without_storage Example.config None Example.server)
    as Hall.
  pose proof (C3_clear_throws_without_storage Example.config (Some (OneName "login"))
Example.server) as Hone.
  specialize (Hall ltac:(vm_compute; reflexivity)).
  specialize (Hone ltac:(vm_compute; reflexivity)).
  destruct Hall as [Hall _]. destruct Hone as [Hone _].
  vm_compute in Hall, Hone. vm_compute. split; [exact Hall | exact Hone].
Defined.



(** C5 fails as stated: with two names registered, [unsubscribe()] signals
    the "all" sentinel twice, so [controlDestroyed('login')] emits twice
    for the one call. *)
Lemma C5_unsubscribe_all_signals_once_per_name :
  destroyed Example.two_names = []
  ∧ controlDestroyed "login" (destroyed (unsubscribe None Example.two_names).2)
    = ["$$ALL"; "$$ALL"].
Proof. vm_compute. split; reflexivity. Qed.

(** [unsubscribe('login')] after one [upsert], and [unsubscribe()] with two
    names registered. *)
Lemma C5_unsubscribe_cancels_and_signals_witness :
  writers "login" (unsubscribe (Some (OneName "login")) Example.once).2 = []
  ∧ controlDestroyed "login"
      (drop (length (destroyed Example.once))
            (destroyed (unsubscribe (Some (OneName "login")) Example.once).2))
    = ["login"]
  ∧ writers "theme" (unsubscribe None Example.two_names).2 = [].
Proof.
  destruct (C5_unsubscribe_cancels_and_signals Example.once) as [Hone _].
  destruct (C5_unsubscribe_cancels_and_signals Example.two_names) as [_ Hall].
  specialize (Hone "login" ltac:(vm_compute; discriminate)).
  specialize (Hall None ltac:(vm_compute; reflexivity)).
  destruct Hone as (_ & _ & _ & _ & Hsilent & _ & Hsignal).
  destruct Hall as (_ & _ & _ & _ & Hevery & _).
  specialize (Hsilent ltac:(vm_compute; reflexivity)).
  specialize (Hevery "theme" ltac:(vm_compute; reflexivity)).
  destruct Hsilent as [Hsilent _]. destruct Hevery as [Hevery _].
  vm_compute in Hsilent, Hsignal, Hevery. vm_compute.
  split; [exact Hsilent|]. split; [exact Hsignal | exact Hevery].
Defined.


(** C8 fails as stated: [clear('')] is a [clear] with a name, yet it empties
    the whole store, the entry of [login] included. *)
Lemma C8_clear_empty_name_empties_store :
  (clear Example.config (Some (OneName EmptyString)) Example.unnamed).1 = Normal tt
  ∧ obj_get "login" (store Example.unnamed) = Some (toStore "login" Example.login_edited)
  ∧ obj_get "login"
      (store (clear Example.config (Some (OneName EmptyString)) Example.unnamed).2)
    = None.
Proof. vm_compute. repeat split; reflexivity. Qed.

(** [clear()] and [clear('login')] with two names in the store. *)
Lemma C8_clear_resets_or_removes_then_persists_witness :
  store (clear Example.config None Example.two_names).2 = []
  ∧ runtime (clear Example.config None Example.two_names).2
    = Browser {["ngFormsManager" := "{}"]}
  ∧ obj_get "login"
      (store (clear Example.config (Some (OneName "login")) Example.two_names).2) = None
  ∧ obj_get "theme"
      (store (clear Example.config (Some (OneName "login")) Example.two_names).2)
    = Some (toStore "theme" Example.theme).
Proof.
  pose proof (C8_clear_resets_or_removes_then_persists Example.config
Example.two_names ∅) as H.
  specialize (H ltac:(vm_compute; reflexivity)). destruct H as [Hall Hone].
  specialize (Hall None ltac:(vm_compute; reflexivity)).
  specialize (Hone (Some (OneName "login")) ltac:(vm_compute; reflexivity)).
  destruct Hall as (_ & Hempty & Hwritten).
  destruct Hone as (_ & Hexact & _).
  pose proof (Hexact "login") as Hlogin. pose proof (Hexact "theme") as Htheme.
  vm_compute in Hempty, Hwritten, Hlogin, Htheme. vm_compute.
  split; [exact Hempty|]. split; [exact Hwritten|]. split; [exact Hlogin | exact Htheme].
Defined.

(** With [persistState] on for the process only, the saved login is not
    merged, and it is overwritten in storage. *)
Lemma C9_rehydration_reads_call_site_flag_only_witness :
  (upsert Example.persisting "login" 1 UpsertConfig.empty Example.saved).1 = Normal tt
  ∧ getControl "login" None
      (upsert Example.persisting "login" 1 UpsertConfig.empty Example.saved).2
    = Some (toStore "login" Example.login_blank)
  ∧ runtime (upsert Example.persisting "login" 1 UpsertConfig.empty Example.saved).2
    = Browser {["ngFormsManager" :=
                json_text "{'login':{'value':{'email':'','password':''}}}"]}.
Proof.
  pose proof (C9_rehydration_reads_call_site_flag_only Example.persisting "login" 1
                UpsertConfig.empty Example.saved) as H.
  specialize (H ltac:(vm_compute; reflexivity) ltac:(vm_compute; reflexivity)
                ltac:(vm_compute; reflexivity)).
  destruct H as (_ & _ & Hget & Hwrite & _).
  specialize (Hwrite Example.saved_storage Example.saved_login
                ltac:(vm_compute; reflexivity) ltac:(vm_compute; reflexivity)).
  destruct Hwrite as (Hret & Hstorage & _).
  vm_compute in Hret, Hget, Hstorage. vm_compute.
  split; [exact Hret|]. split; [exact Hget | exact Hstorage].
Defined.

(** The captured initial value of the sample login survives [clear()] and
    not [clear('login')]. *)
Lemma C10_clear_without_name_keeps_initial_values_witness :
  initialValues Example.captured !! "login" = Some (JObj [("email", JStr "a@x.com")])
  ∧ initialValues (clear Example.config None Example.captured).2
    = initialValues Example.captured
  ∧ initialValues (clear Example.config (Some (OneName "login")) Example.captured).2
      !! "login" = None.
Proof.
  pose proof (C10_clear_without_name_keeps_initial_values Example.config
Example.captured) as ((Hkeep & _) & Hremove & Hreturns).
  specialize (Hreturns (Some (OneName "login")) ∅ ltac:(vm_compute; reflexivity)).
  specialize (Hremove (OneName "login") Hreturns "login").
  vm_compute in Hkeep, Hremove. vm_compute.
  split; [reflexivity|]. split; [exact Hkeep | exact Hremove].
Defined.

(* ===================================================================== *)
(** * Further properties of the manager *)
(* ===================================================================== *)

(** Induction on values, through arrays and objects. *)
Lemma JsValue_nested_ind (P : JsValue → Prop) :
  P JNull → (∀ b, P (JBool b)) → (∀ l, P (JNum l)) → (∀ s, P (JStr s)) →
  (∀ xs, Forall P xs → P (JArr xs)) →
  (∀ ps, Forall (fun kv => P kv.2) ps → P (JObj ps)) →
  ∀ v, P v.
Proof.
  intros Hnull Hbool Hnum Hstr Harr Hobj.
  exact (fix go (v : JsValue) : P v :=
           match v with
           | JNull => Hnull
           | JBool b => Hbool b
           | JNum l => Hnum l
           | JStr s => Hstr s
           | JArr xs =>
               Harr xs ((fix items (l : list JsValue) : Forall P l :=
                           match l with
                           | [] => @List.Forall_nil _ P
                           | x :: r => @List.Forall_cons _ P x r (go x) (items r)
                           end) xs)
           | JObj ps =>
               Hobj ps ((fix fields (l : list (string * JsValue))
                           : Forall (fun kv => P kv.2) l :=
                           match l with
                           | [] => @List.Forall_nil _ _
                           | (k, x) :: r =>
                               @List.Forall_cons _ (fun kv => P kv.2) (k, x) r (go x)
                                                 (fields r)
                           end) ps)
           end).
Qed.

(* ===================================================================== *)
(** ** More about [upsert] *)
(* ===================================================================== *)

Lemma same_but_refl name control w : same_but name control w w.
Proof. by repeat split. Qed.

Lemma same_but_trans name control w1 w2 w3 :
  same_but name control w1 w2 → same_but name control w2 w3 →
  same_but name control w1 w3.
Proof.
  intros (Ha & Hb & Hc & Hd & He & Hf & Hg & Hh) (Ha' & Hb' & Hc' & Hd' & He' & Hf' & Hg' & Hh').
  repeat split; try congruence.
  - intros other Hne. by rewrite Ha', Ha.
  - intros other Hne. by rewrite Hg', Hg.
Qed.

Lemma capture_initial_value_exact name control mergedConfig w :
  capture_initial_value name control mergedConfig w
  = (Normal tt,
     with_initialValues
       (match initialValues w !! name with
        | Some v => initialValues w
        | None =>
            if withInitialValue mergedConfig
            then <[name := control_value (deref control w)]> (initialValues w)
            else initialValues w
        end) w).
Proof.
  unfold capture_initial_value, setInitialValue. unfold_monad.
  destruct (initialValues w !! name) as [v|] eqn:E.
  - rewrite bool_decide_eq_true_2 by eauto. rewrite andb_false_r.
    by rewrite with_initialValues_id.
  - rewrite bool_decide_eq_false_2 by (intros [? ?]; done). rewrite andb_true_r.
    destruct (withInitialValue mergedConfig); [done|].
    by rewrite with_initialValues_id.
Qed.

Lemma rehydrate_same_but name control inline mergedConfig w :
  same_but name control w (rehydrate name control inline mergedConfig w).2.
Proof.
  unfold rehydrate. unfold_monad.
  destruct (_ && _ && _); [|apply same_but_refl].
  pose proof (getFromStorage_reads (storage_key mergedConfig) w) as Hw.
  destruct (getFromStorage (storage_key mergedConfig) w) as [[blob|e] w'];
    simpl in Hw; subst w'; [|apply same_but_refl].
  destruct blob; cbn [prop]; unfold_monad; try apply same_but_refl.
  destruct (obj_get name props) as [persisted|]; [|apply same_but_refl].
  destruct (truthy persisted); [|apply same_but_refl].
  cbn. repeat split; try done. intros other Hne. cbn. by apply obj_get_set_ne.
Qed.

Lemma list_lookup_insert_other {A : Type} (l : list A) i j x :
  j ≠ i → <[i := x]> l !! j = l !! j.
Proof. intros H. by apply list_lookup_insert_ne. Qed.

Lemma synchronise_same_but name control mergedConfig w :
  same_but name control w (synchronise name control mergedConfig w).2.
Proof.
  destruct (hasControl name None w) eqn:Hreg.
  - unfold synchronise, toControlValue. unfold_monad. rewrite Hreg.
    destruct (match getControl name None w with Some (JObj ps) => _ | _ => false end);
      cbn; repeat split; try done; intros other Hne; cbn;
      rewrite ?list_lookup_insert_other by done; done.
  - rewrite synchronise_fresh by exact Hreg. rewrite on_change_run.
    destruct (updateStorage_frame name (toStore name (deref control w)) mergedConfig
                (with_store (obj_set name (toStore name (deref control w)) (store w)) w))
      as [r Hr].
    assert (Hb : isBrowser (updateStorage name (toStore name (deref control w)) mergedConfig
                (with_store (obj_set name (toStore name (deref control w)) (store w)) w)).2
                 = isBrowser w).
    { unfold updateStorage. unfold_monad.
      change (isBrowser (with_store _ w)) with (isBrowser w).
      destruct (isBrowser w) eqn:Hbr; [|done]. destruct (persistState mergedConfig); [|done].
      cbn [andb].
      pose proof (getFromStorage_reads (storage_key mergedConfig)
                    (with_store (obj_set name (toStore name (deref control w)) (store w)) w))
        as Hw.
      destruct (getFromStorage _ _) as [[blob|e] w']; simpl in Hw; subst w'; [|done].
      unfold assign, localStorage_setItem. unfold_monad. unfold isBrowser in *.
      cbn [runtime with_store] in *.
      destruct blob; try done; cbn; destruct (runtime w) eqn:Hrt; cbn; done. }
    rewrite Hr in Hb |- *. cbn in Hb |- *.
    repeat split; try done. intros other Hne. cbn. by apply obj_get_set_ne.
Qed.

(** The world [register] starts from: what the first three statements of
    [upsert] leave, and the outcome. *)
Lemma upsert_stages config name control inline w :
  ∃ w3,
    same_but name control
      (with_initialValues
         (match initialValues w !! name with
          | Some v => initialValues w
          | None =>
              if withInitialValue (merge config inline)
              then <[name := control_value (deref control w)]> (initialValues w)
              else initialValues w
          end) w) w3
    ∧ (upsert config name control inline w
       = register name control (merge config inline) w3
       ∨ ∃ e, upsert config name control inline w = (Abrupt e, w3)).
Proof.
  unfold upsert. unfold_monad. rewrite capture_initial_value_exact.
  set (w1 := with_initialValues _ w).
  pose proof (rehydrate_same_but name control inline (merge config inline) w1) as H2.
  destruct (rehydrate _ _ _ _ w1) as [[[]|e] w2]; simpl in H2;
    [|exists w2; split; [done | right; by exists e]].
  pose proof (synchronise_same_but name control (merge config inline) w2) as H3.
  destruct (synchronise _ _ _ w2) as [[[]|e] w3]; simpl in H3;
    (exists w3; split; [by eapply same_but_trans|]); [by left | right; by exists e].
Qed.

(** X1 (isolation).  Whatever its outcome, [upsert(name, control, config)]
    leaves every other name as it was: its store entry, its recorded
    subscription and instance, its captured initial value.  It changes no
    subscription that existed, no other live control, and signals no
    destruction. *)
Theorem upsert_leaves_other_names_alone
    (config : Config) (name : string) (control : nat)
    (inline : UpsertConfig.t) (w : World) :
  let w' := (upsert config name control inline w).2 in
  (∀ other, other ≠ name →
     obj_get other (store w') = obj_get other (store w)
     ∧ valueChanges w' !! other = valueChanges w !! other
     ∧ instances w' !! other = instances w !! other
     ∧ initialValues w' !! other = initialValues w !! other)
  ∧ (∀ handle s, subscriptions w !! handle = Some s → subscriptions w' !! handle = Some s)
  ∧ (∀ other, other ≠ control → heap w' !! other = heap w !! other)
  ∧ destroyed w' = destroyed w.
Proof.
  intros w'. subst w'.
  destruct (upsert_stages config name control inline w)
    as (w3 & (Hstore & Hvc & Hinst & Hiv & Hd & Hsubs & Hheap & _) & Hrun).
  assert (Hiv' : ∀ other, other ≠ name → initialValues w3 !! other = initialValues w !! other).
  { intros other Hne. rewrite Hiv. cbn [initialValues with_initialValues].
    destruct (initialValues w !! name); [done|].
    destruct (withInitialValue _); [by apply lookup_insert_ne | done]. }
  destruct Hrun as [-> | [e ->]]; [rewrite register_run|]; cbn.
  - split; [|split; [|split]].
    + intros other Hne. rewrite Hstore, Hvc, Hinst, Hiv' by done.
      by rewrite !lookup_insert_ne by done.
    + intros handle s Hs. rewrite Hsubs. by apply lookup_app_l_Some.
    + intros other Hne. by rewrite Hheap.
    + by rewrite Hd.
  - split; [|split; [|split]].
    + intros other Hne. by rewrite Hstore, Hvc, Hinst, Hiv'.
    + intros handle s Hs. by rewrite Hsubs.
    + intros other Hne. by rewrite Hheap.
    + by rewrite Hd.
Qed.

Lemma synchronise_hasControl name control mergedConfig w :
  hasControl name None (synchronise name control mergedConfig w).2 = true.
Proof.
  destruct (hasControl name None w) eqn:Hreg.
  - by destruct (synchronise_registered name control mergedConfig w Hreg) as [h ->].
  - rewrite synchronise_fresh by exact Hreg. rewrite on_change_run.
    destruct (updateStorage_frame name (toStore name (deref control w)) mergedConfig
                (with_store (obj_set name (toStore name (deref control w)) (store w)) w))
      as [r ->].
    unfold hasControl, getControl. cbn [store with_runtime with_store].
    rewrite obj_get_set_eq. by destruct (toStore_object name (deref control w)) as [ps ->].
Qed.

(** An [upsert] that returns has gone through [register], from a world
    with the subscriptions there were and a store entry for the name. *)
Lemma upsert_returned config name control inline w :
  (upsert config name control inline w).1 = Normal tt →
  ∃ w3, upsert config name control inline w
        = register name control (merge config inline) w3
        ∧ subscriptions w3 = subscriptions w
        ∧ hasControl name None w3 = true.
Proof.
  unfold upsert. unfold_monad. rewrite capture_initial_value_exact.
  set (w1 := with_initialValues _ w).
  pose proof (rehydrate_subscriptions name control inline (merge config inline) w1) as H2.
  destruct (rehydrate _ _ _ _ w1) as [[[]|e] w2]; [|discriminate].
  pose proof (synchronise_subscriptions name control (merge config inline) w2) as H3.
  pose proof (synchronise_hasControl name control (merge config inline) w2) as H3'.
  destruct (synchronise _ _ _ w2) as [[[]|e] w3]; [|discriminate].
  simpl in H2, H3, H3'. intros _. exists w3. split; [done|]. split; [|done].
  by rewrite H3, H2.
Qed.

(** X2 (registration).  After an [upsert(name, control, config)] that
    returns, the store has an entry for the name ([hasControl(name)] holds)
    and the instance recorded for the name, the one [patchValue] and
    [setValue] will reach, is the control just supplied. *)
Theorem upsert_registers_name
    (config : Config) (name : string) (control : nat)
    (inline : UpsertConfig.t) (w : World) :
  (upsert config name control inline w).1 = Normal tt →
  hasControl name None (upsert config name control inline w).2 = true
  ∧ instances (upsert config name control inline w).2 !! name = Some control.
Proof.
  intros Hret. destruct (upsert_returned config name control inline w Hret)
    as (w3 & -> & _ & Hreg).
  rewrite register_run. cbn [snd]. split.
  - exact Hreg.
  - cbn. apply lookup_insert_eq.
Qed.

(** X3 (no persistence, no failure).  Where there is no [localStorage], or
    when the merged configuration does not ask for persistence, [upsert]
    always returns and leaves storage as it is: every storage access of
    [upsert] is behind [isBrowser()] and a [persistState] flag. *)
Theorem upsert_without_persistence_returns
    (config : Config) (name : string) (control : nat)
    (inline : UpsertConfig.t) (w : World) :
  isBrowser w = false ∨ persistState (merge config inline) = false →
  (upsert config name control inline w).1 = Normal tt
  ∧ runtime (upsert config name control inline w).2 = runtime w.
Proof.
  intros Hoff. unfold upsert. unfold_monad. rewrite capture_initial_value_exact.
  set (w1 := with_initialValues _ w).
  rewrite rehydrate_skipped.
  2:{ destruct Hoff as [Hb | Hp]; [by left|]. right. left. intros Hi.
      unfold merge in Hp. simpl in Hp. by rewrite Hi in Hp. }
  destruct (hasControl name None w1) eqn:Hreg.
  - destruct (synchronise_registered name control (merge config inline) w1 Hreg) as [h ->].
    by rewrite register_run.
  - rewrite synchronise_fresh by exact Hreg. rewrite on_change_run.
    rewrite updateStorage_skips by exact Hoff.
    by rewrite register_run.
Qed.

(** The re-hydration step when its guard holds, case by case. *)
Lemma rehydrate_reads name control inline mergedConfig w :
  isBrowser w = true →
  UpsertConfig.persistState inline = Some true →
  hasControl name None w = false →
  rehydrate name control inline mergedConfig w
  = match (getFromStorage (storage_key mergedConfig) w).1 with
    | Abrupt e => (Abrupt e, w)
    | Normal JNull => (Abrupt TypeError, w)
    | Normal (JObj ps) =>
        match obj_get name ps with
        | Some persisted =>
            if truthy persisted
            then (Normal tt,
                  with_store
                    (obj_set name (mergeDeep (toStore name (deref control w)) persisted)
                             (store w)) w)
            else (Normal tt, w)
        | None => (Normal tt, w)
        end
    | Normal _ => (Normal tt, w)
    end.
Proof.
  intros Hb Hp Hfresh. unfold rehydrate. unfold_monad.
  rewrite Hb, Hp, Hfresh, bool_decide_eq_true_2 by done. cbn [andb negb].
  pose proof (getFromStorage_reads (storage_key mergedConfig) w) as Hw.
  destruct (getFromStorage (storage_key mergedConfig) w) as [[blob|e] w'];
    simpl in Hw; subst w'; [|done].
  destruct blob; cbn [prop fst]; unfold_monad; try done.
  destruct (obj_get name props) as [persisted|]; [|done].
  unfold store_update. unfold_monad. by destruct (truthy persisted).
Qed.

(** X4 (failed re-hydration).  When [upsert] is called with [persistState]
    for a name without a store entry and the stored blob does not parse, or
    is the JSON [null], the call throws (a [SyntaxError], a [TypeError]) out
    of the re-hydration step: nothing has been stored, subscribed or
    recorded, only the initial value may have been captured. *)
Theorem upsert_throws_before_registering
    (config : Config) (name : string) (control : nat)
    (inline : UpsertConfig.t) (w : World) :
  isBrowser w = true →
  UpsertConfig.persistState inline = Some true →
  hasControl name None w = false →
  let captured :=
    with_initialValues
      (match initialValues w !! name with
       | Some v => initialValues w
       | None =>
           if withInitialValue (merge config inline)
           then <[name := control_value (deref control w)]> (initialValues w)
           else initialValues w
       end) w in
  (∀ e, (getFromStorage (storage_key config) w).1 = Abrupt e →
        upsert config name control inline w = (Abrupt e, captured))
  ∧ ((getFromStorage (storage_key config) w).1 = Normal JNull →
     upsert config name control inline w = (Abrupt TypeError, captured)).
Proof.
  intros Hb Hp Hfresh captured.
  pose proof (rehydrate_reads name control inline (merge config inline) captured
                Hb Hp Hfresh) as Hstep.
  change (storage_key (merge config inline)) with (storage_key config) in Hstep.
  rewrite (getFromStorage_runtime (storage_key config) captured w eq_refl) in Hstep.
  split.
  - intros e He. unfold upsert. unfold_monad. rewrite capture_initial_value_exact.
    fold captured. by rewrite Hstep, He.
  - intros Hnull. unfold upsert. unfold_monad. rewrite capture_initial_value_exact.
    fold captured. by rewrite Hstep, Hnull.
Qed.

(** X5 (failed write).  When persistence is on through the process-wide
    configuration only and the stored blob does not parse, [upsert] of a
    name without a store entry throws out of [updateStorage], after the
    snapshot has been written to the store and before the subscription is
    created: the name has a store entry, but no subscription, no instance
    and no registry entry to keep it in step with the control. *)
Theorem upsert_throws_after_storing
    (config : Config) (name : string) (control : nat)
    (inline : UpsertConfig.t) (w : World) (e : JsError) :
  isBrowser w = true →
  UpsertConfig.persistState inline ≠ Some true →
  persistState (merge config inline) = true →
  hasControl name None w = false →
  (getFromStorage (storage_key config) w).1 = Abrupt e →
  let result := upsert config name control inline w in
  result.1 = Abrupt e
  ∧ getControl name None result.2 = Some (toStore name (deref control w))
  ∧ valueChanges result.2 = valueChanges w
  ∧ instances result.2 = instances w
  ∧ subscriptions result.2 = subscriptions w.
Proof.
  intros Hb Hp Hmerged Hfresh He result. unfold result, upsert. unfold_monad.
  rewrite capture_initial_value_exact. set (w1 := with_initialValues _ w).
  rewrite rehydrate_skipped by (right; by left).
  rewrite synchronise_fresh by exact Hfresh. rewrite on_change_run.
  change (deref control w1) with (deref control w).
  set (w3 := with_store _ w1).
  assert (Hthrow : updateStorage name (toStore name (deref control w))
                     (merge config inline) w3 = (Abrupt e, w3)).
  { unfold updateStorage. unfold_monad.
    change (isBrowser w3) with (isBrowser w). rewrite Hb, Hmerged. cbn [andb].
    change (storage_key (merge config inline)) with (storage_key config).
    pose proof (getFromStorage_reads (storage_key config) w3) as Hw.
    pose proof (getFromStorage_runtime (storage_key config) w3 w eq_refl) as Hsame.
    rewrite He in Hsame.
    destruct (getFromStorage (storage_key config) w3) as [c' w'].
    simpl in Hw, Hsame. by subst c' w'. }
  rewrite Hthrow. cbn. split; [done|]. split; [apply obj_get_set_eq | done].
Qed.

(** X6 (first capture wins).  Whatever its outcome, [upsert] leaves a
    captured initial value of the name as it is, be it from an earlier
    [upsert] or from [setInitialValue]; only when there is none, and the
    merged configuration has [withInitialValue], does it capture the value
    the control has at the call. *)
Theorem upsert_captures_initial_value_once
    (config : Config) (name : string) (control : nat)
    (inline : UpsertConfig.t) (w : World) :
  initialValues (upsert config name control inline w).2 !! name
  = match initialValues w !! name with
    | Some v => Some v
    | None =>
        if withInitialValue (merge config inline)
        then Some (control_value (deref control w))
        else None
    end.
Proof.
  destruct (upsert_stages config name control inline w)
    as (w3 & (_ & _ & _ & Hiv & _) & Hrun).
  assert (H : initialValues (upsert config name control inline w).2 = initialValues w3).
  { destruct Hrun as [-> | [e ->]]; [by rewrite register_run | done]. }
  rewrite H, Hiv. cbn [initialValues with_initialValues].
  destruct (initialValues w !! name) as [v|] eqn:E; [done|].
  destruct (withInitialValue _); [apply lookup_insert_eq | done].
Qed.


(* ===================================================================== *)
(** ** Deliveries and the proxies *)
(* ===================================================================== *)

Lemma on_change_world name control cfg w :
  ∃ r, (on_change name control cfg w).2
       = with_runtime r
           (with_store (obj_set name (toStore name (deref control w)) (store w)) w).
Proof. rewrite on_change_run. apply updateStorage_frame. Qed.

Lemma react_open handle s w :
  subscriptions w !! handle = Some s → closed s = false →
  ∃ r, (react (Delivered handle) w).2
       = with_runtime r
           (with_store (obj_set (subject s) (toStore (subject s) (deref (source s) w))
                                (store w)) w).
Proof.
  intros Hs Hopen. unfold react. unfold_monad. rewrite Hs, Hopen.
  apply on_change_world.
Qed.

Lemma proxy_patch_run name value control c w :
  instances w !! name = Some control →
  heap w !! control = Some c →
  Proxy.patchValue name value w
  = (Normal tt, with_heap (<[control := patchValue c value]> (heap w)) w).
Proof.
  intros Hrec Hc. unfold Proxy.patchValue. unfold_monad. rewrite Hrec.
  unfold deref. by rewrite Hc.
Qed.


(** X9 (from the proxy to the store).  After an [upsert(name, control)] that
    returns, [patchValue(name, value)] followed by the delivery of the
    subscription [upsert] created leaves in the store the snapshot of the
    control as patched. *)
Theorem patchValue_then_delivery_updates_store
    (config : Config) (name : string) (control : nat) (inline : UpsertConfig.t)
    (value : JsValue) (w : World) (c : AbstractControl) :
  (upsert config name control inline w).1 = Normal tt →
  heap (upsert config name control inline w).2 !! control = Some c →
  let registered := (upsert config name control inline w).2 in
  let patched := (Proxy.patchValue name value registered).2 in
  let delivered := (react (Delivered (length (subscriptions w))) patched).2 in
  getControl name None delivered = Some (toStore name (patchValue c value))
  ∧ heap delivered !! control = Some (patchValue c value).
Proof.
  intros Hret Hc registered patched delivered.
  destruct (upsert_returned config name control inline w Hret) as (w3 & Hrun & Hsubs & _).
  assert (Hworld : registered = (register name control (merge config inline) w3).2)
    by (unfold registered; by rewrite Hrun).
  rewrite register_run in Hworld. cbn [snd] in Hworld.
  assert (Hinst : instances registered !! name = Some control).
  { rewrite Hworld. cbn. apply lookup_insert_eq. }
  assert (Hsub : subscriptions registered !! length (subscriptions w)
                 = Some {| subject := name; source := control;
                           settings := merge config inline; closed := false |}).
  { rewrite Hworld. cbn. rewrite Hsubs, lookup_app_r by done. by rewrite Nat.sub_diag. }
  fold registered in Hc.
  assert (Hpatched : patched
                     = with_heap (<[control := patchValue c value]> (heap registered))
                                 registered).
  { unfold patched. by rewrite (proxy_patch_run name value control c registered Hinst Hc). }
  assert (Hheap : heap patched !! control = Some (patchValue c value)).
  { rewrite Hpatched. cbn. apply list_lookup_insert_eq. by eapply lookup_lt_Some. }
  assert (Hsub' : subscriptions patched !! length (subscriptions w)
                  = Some {| subject := name; source := control;
                            settings := merge config inline; closed := false |}).
  { by rewrite Hpatched. }
  destruct (react_open _ _ patched Hsub' eq_refl) as [r Hdel].
  fold delivered in Hdel. cbn [subject source] in Hdel. rewrite Hdel. cbn. split.
  - rewrite obj_get_set_eq. unfold deref. by rewrite Hheap.
  - exact Hheap.
Qed.

(* ===================================================================== *)
(** ** More about [unsubscribe], [clear] and [destroy] *)
(* ===================================================================== *)

Lemma fmap_shut_shut (o : option Subscription) : shut <$> (shut <$> o) = shut <$> o.
Proof. by destruct o. Qed.

(** The loop of [unsubscribe(name)] over the names it was given. *)
Lemma unsubscribe_names_run (ns : list string) : ∀ w,
  ∃ subs',
    for_each ns (fun name =>
      recorded ← gets (fun w => valueChanges w !! name);
      match recorded with
      | Some subscription => close subscription
      | None => mret tt
      end;;
      modify (fun w => with_valueChanges (delete name (valueChanges w)) w);;
      modify (fun w => with_instances (delete name (instances w)) w);;
      destroy_next name) w
    = (Normal tt,
       with_destroyed (destroyed w ++ ns)
         (with_instances (foldl (fun m n => delete n m) (instances w) ns)
            (with_valueChanges (foldl (fun m n => delete n m) (valueChanges w) ns)
               (with_subscriptions subs' w))))
    ∧ (∀ h, subs' !! h = subscriptions w !! h ∨ subs' !! h = shut <$> subscriptions w !! h)
    ∧ (∀ n h, n ∈ ns → valueChanges w !! n = Some h →
              subs' !! h = shut <$> subscriptions w !! h).
Proof.
  set (body := fun name : string => _).
  induction ns as [|n ns IH]; intros w.
  - exists (subscriptions w). split; [|split].
    + cbn. rewrite app_nil_r. by destruct w.
    + intros h. by left.
    + intros n h Hin. by apply elem_of_nil in Hin.
  - set (s1 := match valueChanges w !! n with
               | Some h => alter shut h (subscriptions w)
               | None => subscriptions w
               end).
    set (w1 := with_destroyed (destroyed w ++ [n])
                 (with_instances (delete n (instances w))
                    (with_valueChanges (delete n (valueChanges w))
                       (with_subscriptions s1 w)))).
    assert (Hbody : body n w = (Normal tt, w1)).
    { unfold body, close, destroy_next, w1, s1. unfold_monad.
      destruct (valueChanges w !! n); [done|]. by destruct w. }
    destruct (IH w1) as (subs' & Hrun & Hany & Hshut).
    assert (Hs1 : ∀ h, s1 !! h = subscriptions w !! h
                       ∨ s1 !! h = shut <$> subscriptions w !! h).
    { intros h. unfold s1. destruct (valueChanges w !! n) as [h0|]; [|by left].
      destruct (decide (h0 = h)) as [->|Hne].
      - right. apply list_lookup_alter_eq.
      - left. by apply list_lookup_alter_ne. }
    exists subs'. split; [|split].
    + cbn [for_each]. unfold mbind at 1, M_bind at 1. rewrite Hbody, Hrun.
      cbn. unfold with_destroyed. cbn. by rewrite <- app_assoc.
    + intros h. destruct (Hany h) as [H | H]; cbn in H; rewrite H;
        destruct (Hs1 h) as [H1 | H1]; rewrite H1, ?fmap_shut_shut; auto.
    + intros n' h Hin Hrec. apply elem_of_cons in Hin.
      destruct (decide (n' = n)) as [->|Hne].
      * assert (Hh : s1 !! h = shut <$> subscriptions w !! h).
        { unfold s1. rewrite Hrec. apply list_lookup_alter_eq. }
        destruct (Hany h) as [H | H]; cbn in H; rewrite H, Hh, ?fmap_shut_shut; done.
      * destruct Hin as [? | Hin]; [done|].
        rewrite (Hshut n' h Hin) by (cbn; by rewrite lookup_delete_ne).
        cbn. destruct (Hs1 h) as [H1 | H1]; rewrite H1, ?fmap_shut_shut; done.
Qed.

(** [unsubscribe] returns, and touches neither the store, nor storage, nor
    the captured initial values, nor a live control. *)
Lemma unsubscribe_frame keys w :
  (unsubscribe keys w).1 = Normal tt
  ∧ store (unsubscribe keys w).2 = store w
  ∧ runtime (unsubscribe keys w).2 = runtime w
  ∧ initialValues (unsubscribe keys w).2 = initialValues w
  ∧ heap (unsubscribe keys w).2 = heap w.
Proof.
  destruct (given keys) eqn:Hg.
  - unfold unsubscribe. rewrite Hg.
    by destruct (unsubscribe_names_run (coerceArray keys) w) as (subs' & -> & _).
  - by rewrite unsubscribe_all_run.
Qed.

(** X10 ([unsubscribe] with names).  [unsubscribe] with a name or a
    collection of names always returns.  It signals every name it was given,
    in order, whether or not the name was registered and as often as it is
    listed; the listed names are gone from both registries and their
    recorded subscriptions are cancelled, the other names keep their
    entries.  The store, storage, the captured initial values and the live
    controls are not touched. *)
Theorem unsubscribe_names_signals_each_name (keys : option FormKeys) (w : World) :
  given keys = true →
  let w' := (unsubscribe keys w).2 in
  (unsubscribe keys w).1 = Normal tt
  ∧ destroyed w' = destroyed w ++ coerceArray keys
  ∧ (∀ n, valueChanges w' !! n
          = if decide (n ∈ coerceArray keys) then None else valueChanges w !! n)
  ∧ (∀ n, instances w' !! n
          = if decide (n ∈ coerceArray keys) then None else instances w !! n)
  ∧ (∀ n h s, n ∈ coerceArray keys → valueChanges w !! n = Some h →
              subscriptions w !! h = Some s → subscriptions w' !! h = Some (shut s))
  ∧ store w' = store w
  ∧ runtime w' = runtime w
  ∧ initialValues w' = initialValues w
  ∧ heap w' = heap w.
Proof.
  intros Hg w'. unfold w', unsubscribe. rewrite Hg.
  destruct (unsubscribe_names_run (coerceArray keys) w) as (subs' & -> & _ & Hshut).
  cbn. split; [done|]. split; [done|].
  split; [intros n; apply lookup_foldl_delete|].
  split; [intros n; apply lookup_foldl_delete|].
  split; [|done].
  intros n h s Hin Hrec Hs. by rewrite (Hshut n h Hin Hrec), Hs.
Qed.

(** X11 (who hears a destruction).  The destruction stream of a name emits
    for [unsubscribe(other)] exactly when [other] is that name, or is the
    string the manager uses as its "all" sentinel: unsubscribing a control
    registered under that string signals the listeners of every name. *)
Theorem controlDestroyed_hears_own_name_and_sentinel
    (name other : string) (w : World) :
  other ≠ EmptyString →
  controlDestroyed name
    (drop (length (destroyed w))
          (destroyed (unsubscribe (Some (OneName other)) w).2))
  = if bool_decide (name = other ∨ other = "$$ALL") then [other] else [].
Proof.
  intros Hne. rewrite unsubscribe_one_run by exact Hne.
  cbn [snd destroyed with_destroyed]. rewrite drop_app_length.
  unfold controlDestroyed.
  destruct (decide (name = other ∨ other = "$$ALL")) as [Hyes|Hno].
  - rewrite bool_decide_eq_true_2 by done. by rewrite filter_cons_True.
  - rewrite bool_decide_eq_false_2 by done. by rewrite filter_cons_False.
Qed.

Lemma destroy_run config keys w ls :
  runtime w = Browser ls →
  destroy config keys w = clear config keys (unsubscribe keys w).2
  ∧ runtime (unsubscribe keys w).2 = Browser ls.
Proof.
  intros Hr. destruct (unsubscribe_frame keys w) as (Hret & _ & Hrt & _).
  unfold destroy. unfold_monad.
  destruct (unsubscribe keys w) as [[[]|e] w1]; [|done]. simpl in *.
  split; [done | by rewrite Hrt].
Qed.

(** X12 ([destroy]).  Where storage exists, [destroy] returns, with a name,
    a collection of names or none.  With names, every listed name is gone
    from the registries, from the store and from the captured initial
    values and has been signalled once per listing, every other name keeps
    its store entry, registry entries and initial value, and the remaining
    store is what storage then holds.  Without a name the registries and the
    store are empty and the empty mapping is written, and the captured
    initial values stay. *)
Theorem destroy_removes_every_trace_of_listed_names
    (config : Config) (keys : option FormKeys) (w : World)
    (ls : gmap string string) :
  runtime w = Browser ls →
  let w' := (destroy config keys w).2 in
  (destroy config keys w).1 = Normal tt
  ∧ (given keys = true →
     destroyed w' = destroyed w ++ coerceArray keys
     ∧ (∀ n, n ∈ coerceArray keys →
          valueChanges w' !! n = None ∧ instances w' !! n = None
          ∧ getControl n None w' = None ∧ initialValues w' !! n = None)
     ∧ (∀ n, n ∉ coerceArray keys →
          valueChanges w' !! n = valueChanges w !! n
          ∧ instances w' !! n = instances w !! n
          ∧ getControl n None w' = getControl n None w
          ∧ initialValues w' !! n = initialValues w !! n)
     ∧ runtime w'
       = Browser (<[storage_key config := JSON.stringify (JObj (store w'))]> ls))
  ∧ (keys = None →
     valueChanges w' = ∅ ∧ instances w' = ∅ ∧ store w' = []
     ∧ initialValues w' = initialValues w
     ∧ runtime w' = Browser (<[storage_key config := "{}"]> ls)).
Proof.
  intros Hr w'. destruct (destroy_run config keys w ls Hr) as [Hrun Hr1].
  unfold w'. rewrite Hrun, (clear_run config keys _ ls Hr1). cbn [fst snd].
  split; [done|]. split.
  - intros Hg. rewrite Hg. unfold unsubscribe. rewrite Hg.
    destruct (unsubscribe_names_run (coerceArray keys) w) as (subs' & -> & _).
    unfold getControl.
    cbn [snd store valueChanges instances initialValues destroyed runtime
         with_store with_valueChanges with_instances with_initialValues
         with_destroyed with_runtime with_subscriptions].
    split; [done|]. split; [|split; [|done]].
    + intros n Hin. rewrite obj_get_deleteControl, !lookup_foldl_delete.
      by rewrite !decide_True by done.
    + intros n Hout. rewrite obj_get_deleteControl, !lookup_foldl_delete.
      by rewrite !decide_False by done.
  - intros ->. by rewrite unsubscribe_all_run.
Qed.

(** X13 (what [clear] and [destroy] have done when they throw).  Where there
    is no [localStorage], [clear] throws only after it has changed the store
    (emptied it, or removed the listed names) and before it removes a
    captured initial value; [destroy] throws then too, after [unsubscribe]
    has run in full. *)
Theorem clear_and_destroy_throw_midway
    (config : Config) (keys : option FormKeys) (w : World) :
  runtime w = Server →
  let state := if given keys then Imports.deleteControl (store w) (coerceArray keys)
               else [] in
  clear config keys w = (Abrupt ReferenceError, with_store state w)
  ∧ destroy config keys w
    = (Abrupt ReferenceError, with_store state (unsubscribe keys w).2).
Proof.
  intros Hr state.
  assert (Hclear : ∀ w0, runtime w0 = Server →
    clear config keys w0
    = (Abrupt ReferenceError,
       with_store (if given keys then Imports.deleteControl (store w0) (coerceArray keys)
                   else []) w0)).
  { intros w0 Hr0. unfold clear, NgFormsManager.deleteControl, store_set,
      removeFromStorage, localStorage_setItem.
    unfold_monad. destruct (given keys); cbn; by rewrite Hr0. }
  split; [by apply Hclear|].
  destruct (unsubscribe_frame keys w) as (Hret & Hstore & Hrt & _).
  unfold destroy. unfold_monad.
  destruct (unsubscribe keys w) as [[[]|e] w1]; [|done]. simpl in *.
  rewrite Hclear by (by rewrite Hrt). unfold state. by rewrite Hstore.
Qed.

(** X14 (out of reach).  After [unsubscribe] with names, a listed name is out
    of reach: [patchValue] for it does nothing, and a delivery to the
    subscription that was recorded for it changes nothing. *)
Theorem unsubscribed_name_is_out_of_reach
    (keys : option FormKeys) (name : string) (w : World) :
  given keys = true →
  name ∈ coerceArray keys →
  let w' := (unsubscribe keys w).2 in
  (∀ value, Proxy.patchValue name value w' = (Normal tt, w'))
  ∧ (∀ handle, valueChanges w !! name = Some handle →
               react (Delivered handle) w' = (Normal tt, w')).
Proof.
  intros Hg Hin w'. unfold w', unsubscribe. rewrite Hg.
  destruct (unsubscribe_names_run (coerceArray keys) w) as (subs' & -> & _ & Hshut).
  cbn [snd]. split.
  - intros value. unfold Proxy.patchValue. unfold_monad. cbn.
    by rewrite lookup_foldl_delete, decide_True.
  - intros handle Hrec. unfold react. unfold_monad. cbn.
    rewrite (Hshut name handle Hin Hrec).
    by destruct (subscriptions w !! handle).
Qed.

(* ===================================================================== *)
(** ** Deep equality and the derived streams *)
(* ===================================================================== *)

Lemma value_eqb_eq : ∀ a b, value_eqb a b = true ↔ a = b.
Proof.
  induction a as [ |x|x|x|xs IH|ps IH] using JsValue_nested_ind;
    intros [ |y|y|y|ys|qs]; cbn [value_eqb]; try (split; [done | discriminate]).
  - done.
  - rewrite Bool.eqb_true_iff. split; congruence.
  - rewrite String.eqb_eq. split; congruence.
  - rewrite String.eqb_eq. split; congruence.
  - revert ys. induction IH as [|x xs Hx _ IHxs]; intros [|y ys];
      try (split; [done | discriminate]); [done|].
    rewrite andb_true_iff, Hx, IHxs. split; [intros [-> [= ->]]; done | by intros [= -> ->]].
  - revert qs. induction IH as [|[k x] ps Hx _ IHps]; intros [|[k' y] qs];
      try (split; [done | discriminate]); [done|].
    simpl in Hx. rewrite !andb_true_iff, String.eqb_eq, Hx, IHps.
    split; [intros [[-> ->] [= ->]]; done | by intros [= -> -> ->]].
Qed.

Lemma isEqual_refl o : isEqual o o = true.
Proof. destruct o as [v|]; [by apply value_eqb_eq | done]. Qed.

Lemma distinct_after_repeat {A : Type} (compare : A -> A -> bool) v :
  (∀ x, compare x x = true) →
  ∀ ys prev, distinct_after compare prev (ys ++ [v; v])
             = distinct_after compare prev (ys ++ [v]).
Proof.
  intros Hrefl. induction ys as [|y ys IH]; intros prev; cbn.
  - destruct (compare prev v); [done|]. by rewrite Hrefl.
  - destruct (compare prev y); by rewrite IH.
Qed.

Lemma distinctUntilChanged_repeat {A : Type} (compare : A -> A -> bool) v ys :
  (∀ x, compare x x = true) →
  distinctUntilChanged compare (ys ++ [v; v]) = distinctUntilChanged compare (ys ++ [v]).
Proof.
  intros Hrefl. destruct ys as [|y ys]; cbn.
  - by rewrite Hrefl.
  - by rewrite distinct_after_repeat.
Qed.

Lemma filterNil_select_app name xs ys :
  filterNil (select name (xs ++ ys))
  = filterNil (select name xs) ++ filterNil (select name ys).
Proof. unfold filterNil, select. by rewrite map_app, omap_app. Qed.

(** X15 (streams and unchanged entries).  A store emission in which the
    entry of the name is what it was in the emission before adds nothing to
    [controlChanges(name, path)], with or without a path: updates of other
    names, and re-writes of the same snapshot, are not seen by the streams
    of this name. *)
Theorem controlChanges_ignores_unchanged_entry
    (name : string) (path : option string)
    (states : list (list (string * JsValue))) (before after : list (string * JsValue)) :
  obj_get name after = obj_get name before →
  controlChanges name path (states ++ [before; after])
  = controlChanges name path (states ++ [before]).
Proof.
  intros Hsame. unfold controlChanges.
  rewrite !filterNil_select_app.
  assert (Hrefl : ∀ x : JsValue, isEqual (Some x) (Some x) = true)
    by (intros; apply isEqual_refl).
  assert (Htail : filterNil (select name [before; after])
                  = filterNil (select name [before]) ++ filterNil (select name [before])).
  { unfold filterNil, select. cbn. rewrite Hsame.
    by destruct (obj_get name before) as [[]|]. }
  rewrite Htail.
  destruct (filterNil (select name [before])) as [|v [|? ?]] eqn:E.
  - by rewrite !app_nil_r.
  - cbn [app]. destruct path as [p|]; [destruct (String.eqb p EmptyString)|].
    + by apply distinctUntilChanged_repeat.
    + rewrite !map_app. cbn [map]. by apply distinctUntilChanged_repeat.
    + by apply distinctUntilChanged_repeat.
  - exfalso. revert E. unfold filterNil, select. cbn.
    by destruct (obj_get name before) as [[]|].
Qed.

Lemma toStore_fields name c :
  ∃ ps, toStore name c = JObj ps
        ∧ obj_get "value" ps = Some (control_value c)
        ∧ obj_get "valid" ps = Some (JBool (valid (status c))).
Proof. destruct c; eexists; (split; [reflexivity|]); by split. Qed.

(** X16 ([isValid]).  [isValid(name)] is the [valid] flag the control had
    when its snapshot was stored: after the [upsert] of a name without a
    store entry (nothing being re-hydrated) it is the control's flag; for a
    name [clear] has removed it is [false], as for any name the store does
    not have. *)
Theorem isValid_follows_the_stored_snapshot
    (config : Config) (name : string) (w : World) :
  (∀ control inline,
     hasControl name None w = false →
     nothing_to_rehydrate config name inline w →
     isValid name (upsert config name control inline w).2
     = Some (JBool (valid (status (deref control w)))))
  ∧ (∀ keys ls,
       runtime w = Browser ls → given keys = true → name ∈ coerceArray keys →
       isValid name (clear config keys w).2 = Some (JBool false))
  ∧ (hasControl name None w = false → isValid name w = Some (JBool false)).
Proof.
  split; [|split].
  - intros control inline Hfresh Hnothing.
    destruct (upsert_fresh config name control inline w Hfresh
                (rehydrate_nothing config name control inline w Hnothing))
      as (iv & r & _ & Hrun).
    cbv zeta in Hrun. rewrite Hrun.
    destruct (toStore_fields name (deref control w)) as (ps & Hps & _ & Hvalid).
    assert (Hget : ∀ w', store w' = obj_set name (toStore name (deref control w)) (store w) →
                         isValid name w' = Some (JBool (valid (status (deref control w))))).
    { intros w' Hstore. unfold isValid, hasControl, getControl.
      by rewrite Hstore, obj_get_set_eq, Hps. }
    destruct (updateStorage _ _ _ _).1 as [[]|e]; [rewrite register_run|]; by apply Hget.
  - intros keys ls Hr Hg Hin. rewrite (clear_run config keys w ls Hr), Hg.
    unfold isValid, hasControl, getControl. cbn [snd store with_initialValues with_runtime with_store].
    by rewrite obj_get_deleteControl, decide_True.
  - intros Hfresh. unfold isValid. by rewrite Hfresh.
Qed.

(** X17 ([initialValueChanged]).  After an [upsert] with [withInitialValue]
    of a name that had no captured value, [initialValueChanged(name)] says
    of a value that it has changed exactly when it differs from the value
    the control had at that [upsert]; before any capture it says so of every
    value. *)
Theorem initialValueChanged_compares_with_captured_value
    (config : Config) (name : string) (control : nat) (inline : UpsertConfig.t)
    (w : World) (current : JsValue) :
  initialValues w !! name = None →
  withInitialValue (merge config inline) = true →
  (initialValueChanged name (upsert config name control inline w).2 (Some current) = true
   ↔ current ≠ control_value (deref control w))
  ∧ initialValueChanged name w (Some current) = true.
Proof.
  intros Hnone Hwith. split.
  - destruct (upsert_stages config name control inline w)
      as (w3 & (_ & _ & _ & Hiv & _) & Hrun).
    assert (H : initialValues (upsert config name control inline w).2 !! name
                = Some (control_value (deref control w))).
    { assert (H0 : initialValues (upsert config name control inline w).2 = initialValues w3).
      { destruct Hrun as [-> | [e ->]]; [by rewrite register_run | done]. }
      rewrite H0, Hiv. cbn [initialValues with_initialValues].
      rewrite Hnone, Hwith. apply lookup_insert_eq. }
    unfold initialValueChanged. rewrite H. cbn [isEqual].
    rewrite negb_true_iff. split.
    + intros Hne ->. by rewrite (proj2 (value_eqb_eq _ _) eq_refl) in Hne.
    + intros Hne. destruct (value_eqb _ _) eqn:E; [|done].
      by apply value_eqb_eq in E.
  - unfold initialValueChanged. by rewrite Hnone.
Qed.

(* ===================================================================== *)
(** ** [JSON.parse] reads back what [JSON.stringify] writes *)
(* ===================================================================== *)

Module Codec.
Import JSON.

Local Abbreviation text s := (list_ascii_of_string s).

Lemma text_app a b : text (a +:+ b) = text a ++ text b.
Proof. induction a as [|c a IH]; [done|]. simpl. f_equal. exact IH. Qed.

Lemma text_of_list l : text (string_of_list_ascii l) = l.
Proof. apply list_ascii_of_string_of_list_ascii. Qed.

Lemma of_text s : string_of_list_ascii (text s) = s.
Proof. apply string_of_list_ascii_of_string. Qed.

(** One character of a string, written and read. *)
Lemma parse_chars_quote_char c r acc :
  parse_chars (quote_char c ++ r) acc = parse_chars r (c :: acc).
Proof.
  destruct c as [[] [] [] [] [] [] [] []]; reflexivity.
Qed.

Lemma parse_chars_quoted s : ∀ r acc,
  parse_chars (flat_map quote_char s ++ dquote :: r) acc = Parsed (rev acc ++ s) r.
Proof.
  induction s as [|c s IH]; intros r acc.
  - cbn. by rewrite app_nil_r.
  - cbn [flat_map]. rewrite <- app_assoc, parse_chars_quote_char, IH.
    cbn. by rewrite <- app_assoc.
Qed.

Lemma text_quote k : text (quote k) = dquote :: flat_map quote_char (text k) ++ [dquote].
Proof. unfold quote. by rewrite text_of_list. Qed.

(** *** Numbers *)

Lemma ends_value_not_in_number rest : ends_value rest = true → not_in_number rest.
Proof.
  destruct rest as [|c rest]; [done|]. cbn. intros H.
  apply orb_true_iff in H as [H|H]; [apply orb_true_iff in H as [H|H]|];
    apply Ascii.eqb_eq in H; subst c; done.
Qed.

Lemma span_digits_app cs rest : ∀ ds r,
  span_digits cs = (ds, r) → not_in_number rest →
  span_digits (cs ++ rest) = (ds, r ++ rest).
Proof.
  induction cs as [|c cs IH]; intros ds r H Hrest.
  - cbn in H. injection H as <- <-. cbn.
    destruct rest as [|x rest]; [done|]. cbn. by destruct Hrest as [-> _].
  - cbn in H |- *. destruct (is_digit c); [|by injection H as <- <-].
    destruct (span_digits cs) as [ds' r'] eqn:E. injection H as <- <-.
    by rewrite (IH _ _ eq_refl Hrest).
Qed.

Ltac exponent_tail rest Hrest H :=
  lazymatch type of H with
  | (if (Ascii.eqb ?c2 _ || _)%bool then _ else _) = _ =>
      destruct (Ascii.eqb c2 "e" || Ascii.eqb c2 "E")%bool; [|discriminate]
  end;
  lazymatch type of H with
  | context [match ?r2 with [] => _ | _ :: _ => _ end] =>
      destruct r2; [discriminate|]
  end;
  cbn [app];
  lazymatch type of H with
  | context [(Ascii.eqb ?s "+" || _)%bool] =>
      destruct (Ascii.eqb s "+" || Ascii.eqb s "-")%bool
  end;
  lazymatch type of H with
  | context [span_digits ?r3] =>
      let E := fresh "E" in
      destruct (span_digits r3) as [es r4] eqn:E;
      first [ rewrite (span_digits_app _ rest _ _ E Hrest)
            | rewrite (span_digits_app _ rest _ _ E Hrest : span_digits (_ :: _ ++ rest) = _) ];
      destruct es; [discriminate|];
      injection H as <- ->; done
  end.

Lemma parse_number_app cs rest l :
  parse_number cs = Parsed l [] → not_in_number rest →
  parse_number (cs ++ rest) = Parsed l rest.
Proof.
  intros H Hrest. unfold parse_number in *.
  assert (∃ sign r0,
    (match cs with
     | c :: r => if Ascii.eqb c "-" then ([c], r) else ([], cs)
     | [] => ([], cs)
     end) = (sign, r0)
    ∧ (match cs ++ rest with
       | c :: r => if Ascii.eqb c "-" then ([c], r) else ([], cs ++ rest)
       | [] => ([], cs ++ rest)
       end) = (sign, r0 ++ rest) ∨ cs = []) as Hsign.
  { destruct cs as [|c cs]; [exists [], []; by right|].
    cbn. destruct (Ascii.eqb c "-"); eauto. }
  destruct Hsign as (sign & r0 & [[E0 E0']| ->]); [|cbn in H; discriminate].
  rewrite E0 in H. rewrite E0'. clear E0 E0'.
  destruct (span_digits r0) as [int r1] eqn:E1.
  rewrite (span_digits_app _ rest _ _ E1 Hrest).
  destruct int as [|d ds]; [discriminate|].
  destruct (Ascii.eqb d "0" && negb (length ds =? 0))%bool; [discriminate|].
  destruct r1 as [|c1 r1].
  - injection H as <-.
    destruct rest as [|x rest']; [done|].
    cbn [app]. destruct Hrest as (_ & -> & -> & ->). done.
  - cbn [app]. destruct (Ascii.eqb c1 ".").
    + destruct (span_digits r1) as [fs r2] eqn:E2.
      rewrite (span_digits_app _ rest _ _ E2 Hrest).
      destruct fs as [|f fs]; [discriminate|].
      destruct r2 as [|c2 r2].
      * injection H as <-.
        destruct rest as [|x rest']; [done|].
        cbn [app]. destruct Hrest as (_ & _ & -> & ->). done.
      * cbn [app]. exponent_tail rest Hrest H.
    + exponent_tail rest Hrest H.
Qed.

Lemma number_literal_parses l :
  number_literal l = true → parse_number (text l) = Parsed (text l) [].
Proof.
  unfold number_literal. destruct (parse_number (text l)) as [l' [|? ?]| |]; try done.
  by intros ->%bool_decide_eq_true.
Qed.

Lemma digit_starts_value c :
  (Ascii.eqb c "-" || is_digit c)%bool = true →
  is_ws c = false ∧ Ascii.eqb c "{" = false ∧ Ascii.eqb c "[" = false
  ∧ Ascii.eqb c "]" = false ∧ Ascii.eqb c dquote = false.
Proof. destruct c as [[] [] [] [] [] [] [] []]; try discriminate; done. Qed.

Lemma number_literal_head l :
  number_literal l = true →
  ∃ c r, text l = c :: r ∧ (Ascii.eqb c "-" || is_digit c)%bool = true.
Proof.
  intros H%number_literal_parses. destruct (text l) as [|c r]; [discriminate|].
  exists c, r. split; [done|]. unfold parse_number in H.
  destruct (Ascii.eqb c "-"); [done|]. cbn [span_digits] in H.
  destruct (is_digit c); [done|discriminate].
Qed.

(** *** Values *)

Lemma skip_ws_head c r : is_ws c = false → skip_ws (c :: r) = c :: r.
Proof. intros H. cbn. by rewrite H. Qed.

(** The first character [JSON.stringify] writes is neither white space nor
    a closing bracket. *)
Lemma stringify_head v :
  json_safe v = true →
  ∃ c r, text (stringify v) = c :: r ∧ is_ws c = false ∧ Ascii.eqb c "]" = false.
Proof.
  destruct v as [ |[]|l|s|xs|ps]; intros Hsafe;
    try (eexists _, _; split; [reflexivity|done]).
  - change (stringify (JNum l)) with l.
    destruct (number_literal_head l Hsafe) as (c & r & -> & Hc).
    exists c, r. by destruct (digit_starts_value c Hc) as (? & _ & _ & ? & _).
Qed.

Lemma obj_set_fresh k v acc ps :
  nodup_keys (map fst (acc ++ (k, v) :: ps)) = true →
  obj_set k v acc = acc ++ [(k, v)].
Proof.
  induction acc as [|[k' v'] acc IH]; [done|].
  cbn [app map fst nodup_keys obj_set]. intros [Hk Hacc]%andb_true_iff.
  rewrite IH by done. rewrite map_app, existsb_app in Hk. cbn in Hk.
  rewrite (String.eqb_sym k k').
  destruct (String.eqb k' k); [|done].
  by rewrite orb_true_r in Hk.
Qed.

Lemma text_member k s tail :
  text (quote k +:+ ":" +:+ s) ++ tail
  = dquote :: flat_map quote_char (text k) ++ dquote :: ":"%char :: text s ++ tail.
Proof.
  rewrite !text_app, text_quote. cbn. by rewrite <- !app_assoc.
Qed.

Lemma join_cons sep p q r : join sep (p :: q :: r) = p +:+ sep +:+ join sep (q :: r).
Proof. reflexivity. Qed.

Lemma elements_read_back xs :
  Forall reads_back xs → forallb json_safe xs = true → xs ≠ [] →
  ∀ fuel acc rest,
    parse_elements fuel (text (join "," (map stringify xs)) ++ "]"%char :: rest) acc
    = Parsed (JArr (acc ++ xs)) rest
    ∨ parse_elements fuel (text (join "," (map stringify xs)) ++ "]"%char :: rest) acc
      = OutOfFuel.
Proof.
  induction 1 as [|x xs Hx _ IH]; [done|].
  cbn [forallb]. intros [Hsafe Hrest]%andb_true_iff _ [|fuel] acc rest; [by right|].
  cbn [parse_elements]. destruct xs as [|y ys].
  - cbn [map join].
    destruct (Hx Hsafe fuel ("]"%char :: rest) eq_refl) as [-> | ->]; [|by right].
    by left.
  - cbn [map]. rewrite join_cons, !text_app, <- !app_assoc.
    change (text "," ++ ?t) with (","%char :: t).
    destruct (Hx Hsafe fuel (","%char :: text (join "," (stringify y :: map stringify ys))
                               ++ "]"%char :: rest) eq_refl) as [-> | ->]; [|by right].
    cbn [skip_ws]. change (is_ws ",") with false. cbn iota.
    change (Ascii.eqb "," ",") with true. cbn iota.
    replace (acc ++ x :: y :: ys) with ((acc ++ [x]) ++ y :: ys)
      by (by rewrite <- app_assoc).
    apply (IH Hrest); done.
Qed.

Lemma members_read_back ps :
  Forall (fun kv => reads_back kv.2) ps →
  forallb (fun kv => match kv with (_, x) => json_safe x end) ps = true → ps ≠ [] →
  ∀ fuel acc rest,
    nodup_keys (map fst (acc ++ ps)) = true →
    let cs := text (join "," (map (fun kv => match kv with
                                              | (k, x) => quote k +:+ ":" +:+ stringify x
                                              end) ps)) ++ "}"%char :: rest in
    parse_members fuel cs acc = Parsed (JObj (acc ++ ps)) rest
    ∨ parse_members fuel cs acc = OutOfFuel.
Proof.
  induction 1 as [|[k x] ps Hx _ IH]; [done|].
  cbn [forallb]. intros [Hsafe Hrest]%andb_true_iff _ [|fuel] acc rest Hnodup;
    [by right|].
  cbn [parse_members]. cbn [snd] in Hx.
  pose proof (obj_set_fresh k x acc ps Hnodup) as Hset.
  destruct ps as [|[k' y] ps'].
  - cbn [map join]. rewrite text_member.
    rewrite (skip_ws_head dquote) by done. rewrite Ascii.eqb_refl.
    change (flat_map quote_char (text k) ++ dquote :: ?t)
      with (flat_map quote_char (text k) ++ dquote :: t).
    rewrite parse_chars_quoted. cbn [rev app].
    rewrite (skip_ws_head ":") by done. change (Ascii.eqb ":" ":") with true. cbn iota.
    destruct (Hx Hsafe fuel ("}"%char :: rest) eq_refl) as [-> | ->]; [|by right].
    rewrite (skip_ws_head "}") by done.
    change (Ascii.eqb "}" ",") with false. change (Ascii.eqb "}" "}") with true. cbn iota.
    rewrite of_text, Hset. by left.
  - cbn [map]. rewrite join_cons, text_app, <- app_assoc, text_member.
    change (text ("," +:+ ?j)) with (","%char :: text j). cbn [app].
    rewrite (skip_ws_head dquote) by done. rewrite Ascii.eqb_refl.
    rewrite parse_chars_quoted. cbn [rev app].
    rewrite (skip_ws_head ":") by done. change (Ascii.eqb ":" ":") with true. cbn iota.
    match goal with
    | |- context [parse_value fuel (text (stringify x) ++ ?t)] =>
        destruct (Hx Hsafe fuel t eq_refl) as [-> | ->]; [|by right]
    end.
    rewrite (skip_ws_head ",") by done. change (Ascii.eqb "," ",") with true. cbn iota.
    rewrite of_text, Hset.
    replace (acc ++ (k, x) :: (k', y) :: ps') with ((acc ++ [(k, x)]) ++ (k', y) :: ps')
      by (by rewrite <- app_assoc).
    apply (IH Hrest); [done|]. by rewrite <- app_assoc.
Qed.

Lemma join_head sep p r : ∃ tail, text (join sep (p :: r)) = text p ++ tail.
Proof.
  destruct r as [|q r]; [exists []; cbn; by rewrite app_nil_r|].
  rewrite join_cons, text_app. eauto.
Qed.

Lemma stringify_reads_back v : reads_back v.
Proof.
  induction v as [ |b|l|s|xs IH|ps IH] using JsValue_nested_ind;
    intros Hsafe [|fuel] rest Hrest; try (by right).
  - by left.
  - left. by destruct b.
  - left. change (stringify (JNum l)) with l.
    destruct (number_literal_head l Hsafe) as (c & r & E & Hc).
    pose proof (parse_number_app _ rest _ (number_literal_parses l Hsafe)
                  (ends_value_not_in_number _ Hrest)) as Hnum.
    rewrite E in Hnum |- *. cbn [app] in Hnum |- *. cbn [parse_value].
    destruct (digit_starts_value c Hc) as (Hws & Hbrace & Hbracket & _ & Hq).
    rewrite (skip_ws_head c) by done.
    rewrite Hbrace, Hbracket, Hq, Hc, Hnum, <- E. by rewrite of_text.
  - left. change (stringify (JStr s)) with (quote s).
    rewrite text_quote. cbn [app parse_value].
    rewrite (skip_ws_head dquote) by done.
    change (Ascii.eqb dquote "{") with false. change (Ascii.eqb dquote "[") with false.
    rewrite Ascii.eqb_refl. cbn iota. rewrite <- app_assoc. cbn [app].
    rewrite parse_chars_quoted. cbn [rev app]. by rewrite of_text.
  - change (stringify (JArr xs))
      with ("[" +:+ join "," (map stringify xs) +:+ "]").
    change (text ("[" +:+ ?j)) with ("["%char :: text j).
    rewrite text_app. cbn [app parse_value]. rewrite <- app_assoc.
    change (text "]" ++ rest) with ("]"%char :: rest).
    rewrite (skip_ws_head "[") by done.
    change (Ascii.eqb "[" "{") with false. change (Ascii.eqb "[" "[") with true. cbn iota.
    destruct xs as [|x xs]; [by left|].
    set (body := text (join "," (map stringify (x :: xs))) ++ "]"%char :: rest).
    assert (∃ c r, body = c :: r ∧ is_ws c = false ∧ Ascii.eqb c "]" = false)
      as (c & r & E & Hws & Hc).
    { subst body. cbn [map]. destruct (join_head "," (stringify x) (map stringify xs))
        as [tail ->].
      cbn [json_safe forallb] in Hsafe. apply andb_true_iff in Hsafe as [Hsafe _].
      destruct (stringify_head x Hsafe) as (c & r & -> & ? & ?).
      by exists c, ((r ++ tail) ++ "]"%char :: rest). }
    rewrite E, (skip_ws_head c), Hc, <- E by done.
    apply (elements_read_back (x :: xs) IH Hsafe ltac:(done) fuel [] rest).
  - change (stringify (JObj ps))
      with ("{" +:+ join "," (map (fun kv => match kv with
                                              | (k, x) => quote k +:+ ":" +:+ stringify x
                                              end) ps) +:+ "}").
    change (text ("{" +:+ ?j)) with ("{"%char :: text j).
    rewrite text_app. cbn [app parse_value]. rewrite <- app_assoc.
    change (text "}" ++ rest) with ("}"%char :: rest).
    rewrite (skip_ws_head "{") by done.
    change (Ascii.eqb "{" "{") with true. cbn iota.
    destruct ps as [|[k x] ps]; [by left|].
    cbn [json_safe] in Hsafe. apply andb_true_iff in Hsafe as [Hnodup Hsafe].
    match goal with |- context [skip_ws ?b] => set (body := b) end.
    assert (∃ r, body = dquote :: r) as (r & E).
    { subst body. cbn [map].
      match goal with
      | |- context [join "," (?p :: ?l)] => destruct (join_head "," p l) as [tail ->]
      end.
      rewrite <- app_assoc, text_member. eauto. }
    rewrite E, (skip_ws_head dquote) by done.
    change (Ascii.eqb dquote "}") with false. cbn iota. rewrite <- E.
    apply (members_read_back ((k, x) :: ps) IH Hsafe ltac:(done) fuel [] rest Hnodup).
Qed.

(** [JSON.parse] reads back every value [JSON.stringify] writes. *)
Lemma parse_stringify v : json_safe v = true → parse (stringify v) = Some v.
Proof.
  intros Hsafe. unfold parse.
  pose proof (JSONFacts.parse_text_fuel (text (stringify v))) as Hfuel.
  unfold parse_text in *.
  destruct (stringify_reads_back v Hsafe (S (2 * length (text (stringify v)))) [] eq_refl)
    as [E | E]; rewrite app_nil_r in E; rewrite E in Hfuel |- *; done.
Qed.
End Codec.

(* ===================================================================== *)
(** ** What is written to storage is what is read from it *)
(* ===================================================================== *)

Lemma existsb_obj_set f k v ps :
  existsb f (map fst (obj_set k v ps)) = true →
  existsb f (map fst ps) = true ∨ f k = true.
Proof.
  induction ps as [|[k' v'] ps IH]; cbn [obj_set map fst existsb].
  - rewrite orb_false_r. by right.
  - destruct (String.eqb_spec k k') as [<-|_]; cbn [map fst existsb];
      intros [H|H]%orb_true_iff.
    + by right.
    + left. by rewrite H, orb_true_r.
    + left. by rewrite H.
    + destruct (IH H) as [H'|H']; [left; by rewrite H', orb_true_r | by right].
Qed.

Lemma json_safe_obj_set k v ps :
  json_safe (JObj ps) = true → json_safe v = true →
  json_safe (JObj (obj_set k v ps)) = true.
Proof.
  cbn [json_safe]. intros [Hnodup Hall]%andb_true_iff Hv. apply andb_true_iff.
  induction ps as [|[k' v'] ps IH];
    [cbn [obj_set map fst nodup_keys forallb existsb]; by rewrite Hv|].
  cbn [map fst nodup_keys forallb] in Hnodup, Hall.
  apply andb_true_iff in Hnodup as [Hk' Hnodup]. apply andb_true_iff in Hall as [Hv' Hall].
  destruct (IH Hnodup Hall) as [IH1 IH2]. cbn [obj_set].
  destruct (String.eqb_spec k k') as [<-|Hne]; cbn [map fst nodup_keys forallb].
  - by rewrite Hk', Hnodup, Hv, Hall.
  - rewrite IH1, IH2, Hv', !andb_true_r. split; [|done].
    apply negb_true_iff. apply not_true_is_false. intros H.
    destruct (existsb_obj_set _ _ _ _ H) as [H'|H'].
    + by rewrite H' in Hk'.
    + apply String.eqb_eq in H'. congruence.
Qed.

Lemma existsb_filter f (P : string * JsValue → Prop) `{∀ kv, Decision (P kv)} ps :
  existsb f (map fst (filter P ps)) = true → existsb f (map fst ps) = true.
Proof.
  induction ps as [|kv ps IH]; [done|]. rewrite filter_cons.
  destruct (decide (P kv)); cbn [map existsb].
  - intros [->|H']%orb_true_iff; [done|]. by rewrite IH, orb_true_r.
  - intros H'. by rewrite IH, orb_true_r.
Qed.

Lemma json_safe_filter (P : string * JsValue → Prop) `{∀ kv, Decision (P kv)} ps :
  json_safe (JObj ps) = true → json_safe (JObj (filter P ps)) = true.
Proof.
  cbn [json_safe]. intros [Hnodup Hall]%andb_true_iff. apply andb_true_iff.
  induction ps as [|[k v] ps IH]; [done|].
  cbn [map fst nodup_keys forallb] in Hnodup, Hall.
  apply andb_true_iff in Hnodup as [Hk Hnodup]. apply andb_true_iff in Hall as [Hv Hall].
  destruct (IH Hnodup Hall) as [IH1 IH2]. rewrite filter_cons.
  destruct (decide (P (k, v))); [|done].
  cbn [map fst nodup_keys forallb]. rewrite IH1, IH2, Hv, !andb_true_r. split; [|done].
  apply negb_true_iff, not_true_is_false. intros H'.
  apply existsb_filter in H'. by rewrite H' in Hk.
Qed.

Lemma stringify_not_empty v : json_safe v = true → JSON.stringify v ≠ EmptyString.
Proof.
  intros Hsafe E. destruct (Codec.stringify_head v Hsafe) as (c & r & Hc & _).
  by rewrite E in Hc.
Qed.

(** Reading, in a browser, a key under which a serialised value lies. *)
Lemma getFromStorage_stringified key w ls v :
  runtime w = Browser ls →
  ls !! key = Some (JSON.stringify v) →
  json_safe v = true →
  getFromStorage key w = (Normal v, w).
Proof.
  intros Hr Hkey Hsafe. unfold getFromStorage, localStorage_getItem. unfold_monad.
  rewrite Hr, Hkey.
  destruct (String.eqb_spec (JSON.stringify v) EmptyString) as [E|_];
    [by apply stringify_not_empty in E|].
  by rewrite Codec.parse_stringify.
Qed.


(* ===================================================================== *)
(** ** What [JSON.parse] returns, [JSON.stringify] can write *)
(* ===================================================================== *)

Module Reparse.
Import JSON.

Local Abbreviation text s := (list_ascii_of_string s).

Lemma span_digits_prefix cs : ∀ ds r,
  span_digits cs = (ds, r) →
  ∀ x, not_digit_next x → span_digits (ds ++ x) = (ds, x).
Proof.
  induction cs as [|c cs IH]; intros ds r H x Hx.
  - cbn in H. injection H as <- <-. destruct x as [|y x]; [done|]. cbn in *. by rewrite Hx.
  - cbn in H. destruct (is_digit c) eqn:Hc.
    + destruct (span_digits cs) as [ds' r'] eqn:E. injection H as <- <-.
      cbn. by rewrite Hc, (IH _ _ eq_refl x Hx).
    + injection H as <- <-. destruct x as [|y x]; [done|]. cbn in *. by rewrite Hx.
Qed.

Lemma span_digits_head cs d ds r : span_digits cs = (d :: ds, r) → is_digit d = true.
Proof.
  destruct cs as [|c cs]; [done|]. cbn. destruct (is_digit c) eqn:Hc; [|done].
  destruct (span_digits cs). by intros [= <- _ _].
Qed.

Lemma digit_is_no_sign d :
  is_digit d = true →
  Ascii.eqb d "-" = false ∧ (Ascii.eqb d "+" || Ascii.eqb d "-")%bool = false.
Proof. destruct d as [[] [] [] [] [] [] [] []]; try discriminate; done. Qed.

Lemma point_is_no_digit c : Ascii.eqb c "." = true → is_digit c = false.
Proof. by intros ->%Ascii.eqb_eq. Qed.

Lemma exponent_mark c :
  (Ascii.eqb c "e" || Ascii.eqb c "E")%bool = true →
  is_digit c = false ∧ Ascii.eqb c "." = false.
Proof. by intros [->%Ascii.eqb_eq | ->%Ascii.eqb_eq]%orb_true_iff. Qed.

(** The shape of the literals [parse_number] accepts. *)
Lemma number_shape_parses sign d ds fs ex :
  sign = [] ∨ sign = ["-"%char] →
  is_digit d = true →
  (∀ x, not_digit_next x → span_digits ((d :: ds) ++ x) = (d :: ds, x)) →
  (Ascii.eqb d "0" && negb (length ds =? 0))%bool = false →
  (fs = [] ∨ ∃ c fd, fs = c :: fd ∧ Ascii.eqb c "." = true ∧ fd ≠ []
                     ∧ ∀ x, not_digit_next x → span_digits (fd ++ x) = (fd, x)) →
  (ex = [] ∨ ∃ c sg es,
      ex = c :: sg ++ es
      ∧ (Ascii.eqb c "e" || Ascii.eqb c "E")%bool = true
      ∧ (sg = [] ∨ ∃ s, sg = [s] ∧ (Ascii.eqb s "+" || Ascii.eqb s "-")%bool = true)
      ∧ (∃ e es', es = e :: es' ∧ is_digit e = true)
      ∧ span_digits es = (es, [])) →
  parse_number (sign ++ (d :: ds) ++ fs ++ ex)
  = Parsed (sign ++ (d :: ds) ++ fs ++ ex) [].
Proof.
  intros Hsign Hd Hint Hzero Hfs Hex.
  assert (Hnext : not_digit_next (fs ++ ex)).
  { destruct Hfs as [-> | (c & fd & -> & Hc & _)]; [|by apply point_is_no_digit].
    destruct Hex as [-> | (c & sg & es & -> & Hc & _)]; [done|].
    by apply exponent_mark. }
  assert (Hex_next : not_digit_next ex).
  { destruct Hex as [-> | (c & sg & es & -> & Hc & _)]; [done|]. by apply exponent_mark. }
  assert (Hexp :
    match ex with
    | [] => Parsed (sign ++ (d :: ds) ++ fs) ex
    | c :: r =>
        if (Ascii.eqb c "e" || Ascii.eqb c "E")%bool then
          let '(sg, r3) :=
            match r with
            | s :: r' =>
                if (Ascii.eqb s "+" || Ascii.eqb s "-")%bool
                then ([s], r') else ([], r)
            | [] => ([], r)
            end in
          let '(es, r4) := span_digits r3 in
          match es with
          | [] => SyntaxError
          | _ => Parsed (sign ++ (d :: ds) ++ fs ++ c :: sg ++ es) r4
          end
        else Parsed (sign ++ (d :: ds) ++ fs) ex
    end = Parsed (sign ++ (d :: ds) ++ fs ++ ex) []).
  { destruct Hex as [-> | (c & sg & es & -> & Hc & Hsg & (e & es' & -> & He) & Hes)];
      [by rewrite app_nil_r|].
    rewrite Hc. destruct Hsg as [-> | (s & -> & Hs)].
    - cbn [app]. destruct (digit_is_no_sign e He) as [_ ->]. by rewrite Hes.
    - cbn [app]. by rewrite Hs, Hes. }
  unfold parse_number.
  assert (Hstart :
    match sign ++ (d :: ds) ++ fs ++ ex with
    | c :: r => if Ascii.eqb c "-" then ([c], r) else ([], sign ++ (d :: ds) ++ fs ++ ex)
    | [] => ([], sign ++ (d :: ds) ++ fs ++ ex)
    end = (sign, (d :: ds) ++ fs ++ ex)).
  { destruct Hsign as [-> | ->]; [|done].
    cbn [app]. by destruct (digit_is_no_sign d Hd) as [-> _]. }
  rewrite Hstart, (Hint _ Hnext), Hzero.
  destruct Hfs as [-> | (c & fd & -> & Hc & Hfd & Hspan)].
  - cbn [app] in *.
    destruct ex as [|c r]; [exact Hexp|].
    destruct Hex as [[=] | (c' & sg & es & [= <- ->] & Hc & _)].
    destruct (exponent_mark c Hc) as [_ ->]. exact Hexp.
  - cbn [app]. rewrite Hc, (Hspan _ Hex_next).
    destruct fd as [|f fd]; [done|]. exact Hexp.
Qed.

Lemma parse_number_literal cs l r :
  parse_number cs = Parsed l r → parse_number l = Parsed l [].
Proof.
  unfold parse_number at 1.
  set (p := match cs with
            | c :: r => if Ascii.eqb c "-" then ([c], r) else ([], cs)
            | [] => ([], cs)
            end).
  assert (Hsign : p.1 = [] ∨ p.1 = ["-"%char]).
  { subst p. destruct cs as [|c cs]; [by left|].
    destruct (Ascii.eqb_spec c "-") as [->|_]; [by right | by left]. }
  destruct p as [sign r0]. cbn [fst] in Hsign.
  destruct (span_digits r0) as [int r1] eqn:E1.
  destruct int as [|d ds]; [done|].
  destruct (Ascii.eqb d "0" && negb (length ds =? 0))%bool eqn:Hzero; [done|].
  pose proof (span_digits_head _ _ _ _ E1) as Hd.
  pose proof (span_digits_prefix _ _ _ E1) as Hint.
  destruct (match r1 with [] => _ | _ => _ end) as [fs r2| |] eqn:Ef; [|done|done].
  assert (Hfs : fs = [] ∨ ∃ c fd, fs = c :: fd ∧ Ascii.eqb c "." = true ∧ fd ≠ []
                     ∧ ∀ x, not_digit_next x → span_digits (fd ++ x) = (fd, x)).
  { destruct r1 as [|c r1]; [injection Ef as <- <-; by left|].
    destruct (Ascii.eqb c ".") eqn:Hc; [|injection Ef as <- <-; by left].
    destruct (span_digits r1) as [fd r2'] eqn:E2.
    destruct fd as [|f fd]; [done|]. injection Ef as <- <-.
    right. exists c, (f :: fd). repeat split; [done|done|].
    apply (span_digits_prefix _ _ _ E2). }
  clear Ef. intros H.
  assert (Hex : ∃ ex, l = sign ++ (d :: ds) ++ fs ++ ex ∧
    (ex = [] ∨ ∃ c sg es,
      ex = c :: sg ++ es
      ∧ (Ascii.eqb c "e" || Ascii.eqb c "E")%bool = true
      ∧ (sg = [] ∨ ∃ s, sg = [s] ∧ (Ascii.eqb s "+" || Ascii.eqb s "-")%bool = true)
      ∧ (∃ e es', es = e :: es' ∧ is_digit e = true)
      ∧ span_digits es = (es, []))).
  { destruct r2 as [|c r2];
      [injection H as <- _; exists []; by rewrite app_nil_r; split; [|left]|].
    destruct (Ascii.eqb c "e" || Ascii.eqb c "E")%bool eqn:Hc;
      [|injection H as <- _; exists []; by rewrite app_nil_r; split; [|left]].
    set (q := match r2 with
              | s :: r' => if (Ascii.eqb s "+" || Ascii.eqb s "-")%bool
                           then ([s], r') else ([], r2)
              | [] => ([], r2)
              end) in H.
    assert (Hsg : q.1 = [] ∨ ∃ s, q.1 = [s] ∧ (Ascii.eqb s "+" || Ascii.eqb s "-")%bool = true).
    { subst q. destruct r2 as [|s r']; [by left|].
      destruct (Ascii.eqb s "+" || Ascii.eqb s "-")%bool eqn:Hs; [right; eauto | by left]. }
    destruct q as [sg r3]. cbn [fst] in Hsg.
    destruct (span_digits r3) as [es r4] eqn:E4.
    destruct es as [|e es']; [done|]. injection H as <- _.
    exists (c :: sg ++ e :: es'). split; [done|]. right.
    exists c, sg, (e :: es'). repeat split; [done|done| |].
    - exists e, es'. split; [done|]. by eapply span_digits_head.
    - pose proof (span_digits_prefix _ _ _ E4 [] I) as Hes. by rewrite app_nil_r in Hes. }
  destruct Hex as (ex & -> & Hex).
  by apply number_shape_parses.
Qed.

Lemma number_literal_parsed cs l r :
  parse_number cs = Parsed l r → number_literal (string_of_list_ascii l) = true.
Proof.
  intros H%parse_number_literal. unfold number_literal.
  rewrite list_ascii_of_string_of_list_ascii, H. by apply bool_decide_eq_true.
Qed.

Lemma parse_safe f :
  (∀ cs v r, parse_value f cs = Parsed v r → json_safe v = true) ∧
  (∀ cs acc v r, json_safe (JObj acc) = true →
     parse_members f cs acc = Parsed v r → json_safe v = true) ∧
  (∀ cs acc v r, forallb json_safe acc = true →
     parse_elements f cs acc = Parsed v r → json_safe v = true).
Proof.
  induction f as [|f (IHv & IHm & IHe)]; [repeat split; intros; discriminate|].
  split; [|split].
  - intros cs v r'. cbn [parse_value].
    destruct (skip_ws cs) as [|c r]; [done|].
    destruct (Ascii.eqb c "{").
    { destruct (skip_ws r) as [|c1 r1]; [done|].
      destruct (Ascii.eqb c1 "}"); [by intros [= <- _]|]. by apply IHm. }
    destruct (Ascii.eqb c "[").
    { destruct (skip_ws r) as [|c1 r1]; [done|].
      destruct (Ascii.eqb c1 "]"); [by intros [= <- _]|]. by apply IHe. }
    destruct (Ascii.eqb c dquote).
    { destruct (parse_chars r []) as [s r1| |]; [|done|done]. by intros [= <- _]. }
    destruct (Ascii.eqb c "-" || is_digit c)%bool.
    { destruct (parse_number (c :: r)) as [l r1| |] eqn:E; [|done|done].
      intros [= <- _]. by eapply number_literal_parsed. }
    destruct (expect _ (c :: r)); [by intros [= <- _]|].
    destruct (expect _ (c :: r)); [by intros [= <- _]|].
    destruct (expect _ (c :: r)); [by intros [= <- _] | done].
  - intros cs acc v r' Hacc. cbn [parse_members].
    destruct (skip_ws cs) as [|q r]; [done|].
    destruct (Ascii.eqb q dquote); [|done].
    destruct (parse_chars r []) as [k r1| |]; [|done|done].
    destruct (skip_ws r1) as [|colon r2]; [done|].
    destruct (Ascii.eqb colon ":"); [|done].
    destruct (parse_value f r2) as [x r3| |] eqn:Ex; [|done|done].
    apply IHv in Ex.
    pose proof (json_safe_obj_set (string_of_list_ascii k) x acc Hacc Ex) as Hacc'.
    destruct (skip_ws r3) as [|d r4]; [done|].
    destruct (Ascii.eqb d ","); [by apply IHm|].
    destruct (Ascii.eqb d "}"); [|done]. by intros [= <- _].
  - intros cs acc v r' Hacc. cbn [parse_elements].
    destruct (parse_value f cs) as [x r1| |] eqn:Ex; [|done|done].
    apply IHv in Ex.
    assert (Hacc' : forallb json_safe (acc ++ [x]) = true).
    { rewrite forallb_app. cbn. by rewrite Hacc, Ex. }
    destruct (skip_ws r1) as [|d r2]; [done|].
    destruct (Ascii.eqb d ","); [by apply IHe|].
    destruct (Ascii.eqb d "]"); [|done]. by intros [= <- _].
Qed.

(** Every value [JSON.parse] returns can be written and read back. *)
Lemma parse_is_safe text v : parse text = Some v → json_safe v = true.
Proof.
  unfold parse, parse_text.
  destruct (parse_value _ _) as [x r| |] eqn:E; [|done|done].
  destruct (skip_ws r); [|done]. intros [= <-].
  by eapply (proj1 (parse_safe _)).
Qed.
End Reparse.

Lemma getFromStorage_safe key w v :
  (getFromStorage key w).1 = Normal v → json_safe v = true.
Proof.
  unfold getFromStorage, localStorage_getItem. unfold_monad.
  destruct (runtime w) as [ls|]; [|done]. cbn [fst].
  intros H. destruct (JSON.parse _) as [x|] eqn:E; [|done].
  cbn in H. injection H as <-. by eapply Reparse.parse_is_safe.
Qed.

(** X18.  In a browser with persistence on, what [updateStorage] writes is what
    [getFromStorage] reads next: the blob that was there, with the
    value-only form of the snapshot under the name and every other entry as
    it was. *)
Theorem updateStorage_then_getFromStorage
    (name : string) (value : JsValue) (cfg : Config) (w : World)
    (ls : gmap string string) (blob : list (string * JsValue)) :
  runtime w = Browser ls →
  persistState cfg = true →
  (getFromStorage (storage_key cfg) w).1 = Normal (JObj blob) →
  json_safe (filterControlKeys value) = true →
  let w' := (updateStorage name value cfg w).2 in
  ∃ blob',
    getFromStorage (storage_key cfg) w' = (Normal (JObj blob'), w')
    ∧ obj_get name blob' = Some (filterControlKeys value)
    ∧ ∀ other, other ≠ name → obj_get other blob' = obj_get other blob.
Proof.
  intros Hr Hp Hblob Hvalue w'. subst w'.
  rewrite (updateStorage_writes name value cfg w ls blob Hr Hp Hblob). cbn [snd].
  exists (obj_set name (filterControlKeys value) blob). split; [|split].
  - eapply getFromStorage_stringified; [reflexivity | apply lookup_insert_eq |].
    apply json_safe_obj_set; [|done]. by eapply getFromStorage_safe.
  - apply obj_get_set_eq.
  - intros other Hne. by apply obj_get_set_ne.
Qed.

Lemma json_safe_cleared keys state :
  json_safe (JObj state) = true →
  json_safe (JObj (if given keys then Imports.deleteControl state (coerceArray keys)
                   else [])) = true.
Proof.
  intros H. destruct (given keys); [|done]. by apply json_safe_filter.
Qed.

(** X19.  In a browser, [clear] leaves under the storage key the whole store as
    it is after the call: every remaining form, persisted or not, with its
    full snapshot; [getFromStorage] reads exactly the store back. *)
Theorem clear_stores_the_remaining_store
    (config : Config) (keys : option FormKeys) (w : World)
    (ls : gmap string string) :
  runtime w = Browser ls →
  json_safe (JObj (store w)) = true →
  let w' := (clear config keys w).2 in
  getFromStorage (storage_key config) w' = (Normal (JObj (store w')), w').
Proof.
  intros Hr Hsafe w'. subst w'. rewrite (clear_run config keys w ls Hr). cbn [snd].
  eapply getFromStorage_stringified; [reflexivity | apply lookup_insert_eq |].
  by apply json_safe_cleared.
Qed.

(** X20.  After [clear(name)] in a browser, [upsert] of the same name starts
    afresh even when it asks for persistence: it returns, and the store
    entry is the plain snapshot of the control, nothing of what was
    persisted for the name before being merged into it. *)
Theorem upsert_after_clear_starts_afresh
    (config : Config) (name : string) (control : nat) (inline : UpsertConfig.t)
    (w : World) (ls : gmap string string) :
  runtime w = Browser ls →
  json_safe (JObj (store w)) = true →
  let w' := (clear config (Some (OneName name)) w).2 in
  let result := upsert config name control inline w' in
  result.1 = Normal tt
  ∧ getControl name None result.2 = Some (toStore name (deref control w))
  ∧ instances result.2 !! name = Some control.
Proof.
  intros Hr Hsafe w' result.
  assert (Hrt : runtime w'
                = Browser (<[storage_key config := JSON.stringify (JObj (store w'))]> ls)).
  { subst w'. by rewrite (clear_run config _ w ls Hr). }
  assert (Hheap : heap w' = heap w).
  { subst w'. by rewrite (clear_run config _ w ls Hr). }
  assert (Hgone : obj_get name (store w') = None).
  { subst w'. rewrite (clear_run config _ w ls Hr). cbn [snd store with_initialValues
      with_runtime with_store].
    destruct (given _); [|done]. rewrite obj_get_deleteControl.
    cbn [coerceArray]. destruct (decide _) as [|Hn]; [done|]. set_solver. }
  assert (Hsafe' : json_safe (JObj (store w')) = true).
  { subst w'. rewrite (clear_run config _ w ls Hr). by apply json_safe_cleared. }
  assert (Hread : ∀ w0, runtime w0 = runtime w' →
            getFromStorage (storage_key config) w0 = (Normal (JObj (store w')), w0)).
  { intros w0 Hw0. rewrite Hrt in Hw0.
    eapply getFromStorage_stringified; [exact Hw0 | apply lookup_insert_eq | done]. }
  assert (Hfresh : hasControl name None w' = false).
  { unfold hasControl, getControl. by rewrite Hgone. }
  assert (Hnothing : nothing_to_rehydrate config name inline w').
  { right. right. exists (JObj (store w')), None.
    rewrite (Hread w' eq_refl). cbn. by rewrite Hgone. }
  destruct (upsert_fresh config name control inline w' Hfresh
              (rehydrate_nothing config name control inline w' Hnothing))
    as (iv & r & Hstorage & Hrun).
  cbn zeta in Hstorage, Hrun.
  set (w3 := with_store _ (with_initialValues iv w')) in *.
  assert (Hwrite : (updateStorage name (toStore name (deref control w'))
                      (merge config inline) w3).1 = Normal tt).
  { destruct (persistState (merge config inline)) eqn:Hp.
    - rewrite (updateStorage_writes name _ _ w3 _ (store w') Hrt Hp); [done|].
      change (storage_key (merge config inline)) with (storage_key config).
      by rewrite (Hread w3 eq_refl).
    - rewrite updateStorage_skips; [done | by right]. }
  subst result. rewrite Hrun, Hwrite, register_run. cbn.
  split; [done|]. split; [|apply lookup_insert_eq].
  rewrite obj_get_set_eq. unfold deref. by rewrite Hheap.
Qed.



(* ===================================================================== *)
(** ** The further properties on the sample worlds *)
(* ===================================================================== *)

(** X1 on the samples.  Registering the theme leaves the login as it was. *)
Lemma upsert_leaves_other_names_alone_witness :
  obj_get "login" (store Example.two_names) = obj_get "login" (store Example.once)
  ∧ instances Example.two_names !! "login" = instances Example.once !! "login".
Proof.
  pose proof (upsert_leaves_other_names_alone Example.config "theme" 2
                UpsertConfig.empty Example.once) as H.
  destruct H as (Hothers & _).
  destruct (Hothers "login" ltac:(discriminate)) as (Hstore & _ & Hinst & _).
  vm_compute in Hstore, Hinst. vm_compute.
  split; [exact Hstore | exact Hinst].
Defined.

(** X2 on the samples.  The first [upsert] of the sample login registers it. *)
Lemma upsert_registers_name_witness :
  hasControl "login" None Example.once = true
  ∧ instances Example.once !! "login" = Some 0.
Proof.
  pose proof (upsert_registers_name Example.config "login" 0 UpsertConfig.empty
                Example.browser) as H.
  specialize (H ltac:(vm_compute; reflexivity)). destruct H as [Hhas Hinst].
  vm_compute in Hhas, Hinst. vm_compute.
  split; [exact Hhas | exact Hinst].
Defined.

(** X3 on the samples.  On a server [upsert] returns even when it asks for persistence. *)
Lemma upsert_without_persistence_returns_witness :
  (upsert Example.persisting "login" 0 Example.persist Example.server).1 = Normal tt
  ∧ runtime (upsert Example.persisting "login" 0 Example.persist Example.server).2
    = Server.
Proof.
  pose proof (upsert_without_persistence_returns Example.persisting "login" 0
                Example.persist Example.server) as H.
  assert (Hoff : isBrowser Example.server = false
                 ∨ persistState (merge Example.persisting Example.persist) = false)
    by (left; vm_compute; reflexivity).
  specialize (H Hoff). destruct H as [Hret Hrt].
  vm_compute in Hret, Hrt. vm_compute.
  split; [exact Hret | exact Hrt].
Defined.

(** X4 on the samples.  A blob cut short and a blob that is [null] both stop [upsert] before
    anything is stored. *)
Lemma upsert_throws_before_registering_witness :
  upsert Example.config "login" 0 Example.persist Example.corrupt
  = (Abrupt SyntaxError, Example.corrupt)
  ∧ upsert Example.config "login" 0 Example.persist Example.nulled
    = (Abrupt TypeError, Example.nulled).
Proof.
  pose proof (upsert_throws_before_registering Example.config "login" 0
                Example.persist Example.corrupt) as Hcut.
  pose proof (upsert_throws_before_registering Example.config "login" 0
                Example.persist Example.nulled) as Hnull.
  specialize (Hcut ltac:(vm_compute; reflexivity) ltac:(vm_compute; reflexivity)
                ltac:(vm_compute; reflexivity)).
  specialize (Hnull ltac:(vm_compute; reflexivity) ltac:(vm_compute; reflexivity)
                ltac:(vm_compute; reflexivity)).
  destruct Hcut as [Hcut _]. destruct Hnull as [_ Hnull].
  specialize (Hcut SyntaxError ltac:(vm_compute; reflexivity)).
  specialize (Hnull ltac:(vm_compute; reflexivity)).
  vm_compute in Hcut, Hnull. vm_compute.
  split; [exact Hcut | exact Hnull].
Defined.

(** X5 on the samples.  With persistence on for the process only, a blob cut short stops
    [upsert] after the snapshot is in the store. *)
Lemma upsert_throws_after_storing_witness :
  (upsert Example.persisting "login" 0 UpsertConfig.empty Example.corrupt).1
  = Abrupt SyntaxError
  ∧ getControl "login" None
      (upsert Example.persisting "login" 0 UpsertConfig.empty Example.corrupt).2
    = Some (toStore "login" Example.login_edited)
  ∧ subscriptions
      (upsert Example.persisting "login" 0 UpsertConfig.empty Example.corrupt).2 = [].
Proof.
  pose proof (upsert_throws_after_storing Example.persisting "login" 0
                UpsertConfig.empty Example.corrupt SyntaxError) as H.
  specialize (H ltac:(vm_compute; reflexivity) ltac:(vm_compute; discriminate)
                ltac:(vm_compute; reflexivity) ltac:(vm_compute; reflexivity)
                ltac:(vm_compute; reflexivity)).
  destruct H as (Hthrow & Hget & _ & _ & Hsubs).
  vm_compute in Hthrow, Hget, Hsubs. vm_compute.
  split; [exact Hthrow|]. split; [exact Hget | exact Hsubs].
Defined.



(** X9 on the samples.  Patching the registered login through the manager, then the delivery. *)
Lemma patchValue_then_delivery_updates_store_witness :
  getControl "login" None
    (react (Delivered 0)
       (Proxy.patchValue "login" (JObj [("email", JStr "b@x.com")]) Example.once).2).2
  = Some (toStore "login" Example.login_retyped).
Proof.
  pose proof (patchValue_then_delivery_updates_store Example.config "login" 0
                UpsertConfig.empty (JObj [("email", JStr "b@x.com")])
                Example.browser Example.login_edited) as H.
  specialize (H ltac:(vm_compute; reflexivity) ltac:(vm_compute; reflexivity)).
  destruct H as [Hget _].
  vm_compute in Hget. vm_compute. exact Hget.
Defined.

(** X10 on the samples.  [unsubscribe(['login', 'ghost', 'login'])] signals all three. *)
Lemma unsubscribe_names_signals_each_name_witness :
  destroyed (unsubscribe (Some (Names ["login"; "ghost"; "login"])) Example.two_names).2
  = ["login"; "ghost"; "login"]
  ∧ store (unsubscribe (Some (Names ["login"; "ghost"; "login"])) Example.two_names).2
    = store Example.two_names.
Proof.
  pose proof (unsubscribe_names_signals_each_name
                (Some (Names ["login"; "ghost"; "login"])) Example.two_names) as H.
  specialize (H ltac:(vm_compute; reflexivity)).
  destruct H as (_ & Hsignals & _ & _ & _ & Hstore & _).
  vm_compute in Hsignals, Hstore. vm_compute.
  split; [exact Hsignals | exact Hstore].
Defined.

(** X11 on the samples.  Unsubscribing a control registered under the sentinel string is heard
    by the listeners of [login]. *)
Lemma controlDestroyed_hears_own_name_and_sentinel_witness :
  controlDestroyed "login"
    (drop (length (destroyed Example.once))
          (destroyed (unsubscribe (Some (OneName "$$ALL")) Example.once).2))
  = ["$$ALL"].
Proof.
  pose proof (controlDestroyed_hears_own_name_and_sentinel "login" "$$ALL"
                Example.once) as H.
  specialize (H ltac:(discriminate)).
  vm_compute in H. vm_compute. exact H.
Defined.

(** X12 on the samples.  [destroy('login')] with two names registered. *)
Lemma destroy_removes_every_trace_of_listed_names_witness :
  (destroy Example.config (Some (OneName "login")) Example.two_names).1 = Normal tt
  ∧ getControl "login" None
      (destroy Example.config (Some (OneName "login")) Example.two_names).2 = None
  ∧ getControl "theme" None
      (destroy Example.config (Some (OneName "login")) Example.two_names).2
    = Some (toStore "theme" Example.theme)
  ∧ store (destroy Example.config None Example.two_names).2 = [].
Proof.
  pose proof (destroy_removes_every_trace_of_listed_names Example.config
                (Some (OneName "login")) Example.two_names ∅) as Hone.
  pose proof (destroy_removes_every_trace_of_listed_names Example.config
                None Example.two_names ∅) as Hall.
  specialize (Hone ltac:(vm_compute; reflexivity)).
  specialize (Hall ltac:(vm_compute; reflexivity)).
  destruct Hone as (Hret & Hone & _). destruct Hall as (_ & _ & Hall).
  specialize (Hone ltac:(vm_compute; reflexivity)).
  specialize (Hall ltac:(reflexivity)).
  destruct Hone as (_ & Hgone & Hkept & _). destruct Hall as (_ & _ & Hempty & _).
  assert (Hin : "login" ∈ coerceArray (Some (OneName "login")))
    by (apply list_elem_of_singleton; reflexivity).
  assert (Hout : "theme" ∉ coerceArray (Some (OneName "login")))
    by (intros Hx%list_elem_of_singleton; discriminate).
  destruct (Hgone "login" Hin) as (_ & _ & Hlogin & _).
  destruct (Hkept "theme" Hout) as (_ & _ & Htheme & _).
  vm_compute in Hret, Hlogin, Htheme, Hempty. vm_compute.
  split; [exact Hret|]. split; [exact Hlogin|]. split; [exact Htheme | exact Hempty].
Defined.

(** X13 on the samples.  On a server, [clear('login')] throws with the login already out of the
    store. *)
Lemma clear_and_destroy_throw_midway_witness :
  clear Example.config (Some (OneName "login")) Example.server_once
  = (Abrupt ReferenceError, with_store [] Example.server_once)
  ∧ (destroy Example.config (Some (OneName "login")) Example.server_once).1
    = Abrupt ReferenceError.
Proof.
  pose proof (clear_and_destroy_throw_midway Example.config (Some (OneName "login"))
                Example.server_once) as H.
  specialize (H ltac:(vm_compute; reflexivity)). destruct H as [Hclear Hdestroy].
  pose proof (f_equal fst Hdestroy) as Hthrow.
  vm_compute in Hclear, Hthrow. vm_compute.
  split; [exact Hclear | exact Hthrow].
Defined.

(** X14 on the samples.  After [unsubscribe('login')] neither the proxy nor a late delivery
    reaches the login. *)
Lemma unsubscribed_name_is_out_of_reach_witness :
  Proxy.patchValue "login" (JObj [("email", JStr "b@x.com")])
    (unsubscribe (Some (OneName "login")) Example.once).2
  = (Normal tt, (unsubscribe (Some (OneName "login")) Example.once).2)
  ∧ react (Delivered 0) (unsubscribe (Some (OneName "login")) Example.once).2
    = (Normal tt, (unsubscribe (Some (OneName "login")) Example.once).2).
Proof.
  pose proof (unsubscribed_name_is_out_of_reach (Some (OneName "login")) "login"
                Example.once) as H.
  assert (Hin : "login" ∈ coerceArray (Some (OneName "login")))
    by (apply list_elem_of_singleton; reflexivity).
  specialize (H ltac:(vm_compute; reflexivity) Hin). destruct H as [Hpatch Hlate].
  specialize (Hpatch (JObj [("email", JStr "b@x.com")])).
  specialize (Hlate 0 ltac:(vm_compute; reflexivity)).
  vm_compute in Hpatch, Hlate. vm_compute.
  split; [exact Hpatch | exact Hlate].
Defined.

(** X15 on the samples.  Registering the theme is not seen by the streams of the login. *)
Lemma controlChanges_ignores_unchanged_entry_witness :
  controlChanges "login" None [store Example.once; store Example.two_names]
  = controlChanges "login" None [store Example.once].
Proof.
  pose proof (controlChanges_ignores_unchanged_entry "login" None []
                (store Example.once) (store Example.two_names)) as H.
  specialize (H ltac:(vm_compute; reflexivity)).
  vm_compute in H. vm_compute. exact H.
Defined.

(** X16 on the samples.  The sample login is valid once registered, and not after [clear]. *)
Lemma isValid_follows_the_stored_snapshot_witness :
  isValid "login" Example.once = Some (JBool true)
  ∧ isValid "login" (clear Example.config (Some (OneName "login")) Example.once).2
    = Some (JBool false).
Proof.
  pose proof (isValid_follows_the_stored_snapshot Example.config "login"
                Example.browser) as [Hup _].
  pose proof (isValid_follows_the_stored_snapshot Example.config "login"
                Example.once) as (_ & Hclear & _).
  assert (Hnothing : nothing_to_rehydrate Example.config "login" UpsertConfig.empty
                       Example.browser)
    by (right; left; vm_compute; discriminate).
  specialize (Hup 0 UpsertConfig.empty ltac:(vm_compute; reflexivity) Hnothing).
  assert (Hin : "login" ∈ coerceArray (Some (OneName "login")))
    by (apply list_elem_of_singleton; reflexivity).
  specialize (Hclear (Some (OneName "login")) ∅ ltac:(vm_compute; reflexivity)
                ltac:(vm_compute; reflexivity) Hin).
  vm_compute in Hup, Hclear. vm_compute.
  split; [exact Hup | exact Hclear].
Defined.

(** X17 on the samples.  The retyped address differs from the one captured at [upsert]. *)
Lemma initialValueChanged_compares_with_captured_value_witness :
  initialValueChanged "login" Example.captured
    (Some (JObj [("email", JStr "b@x.com")])) = true.
Proof.
  pose proof (initialValueChanged_compares_with_captured_value Example.config "login" 0
                Example.with_initial Example.browser
                (JObj [("email", JStr "b@x.com")])) as H.
  specialize (H ltac:(vm_compute; reflexivity) ltac:(vm_compute; reflexivity)).
  destruct H as [[_ Hback] _].
  specialize (Hback ltac:(vm_compute; discriminate)).
  vm_compute in Hback. vm_compute. exact Hback.
Defined.

(** X18 on the samples.  Persisting the theme beside a saved login. *)
Lemma updateStorage_then_getFromStorage_witness :
  ∃ blob',
    getFromStorage "ngFormsManager"
      (updateStorage "theme" (toStore "theme" Example.theme) Example.persisting
         Example.saved).2
    = (Normal (JObj blob'),
       (updateStorage "theme" (toStore "theme" Example.theme) Example.persisting
          Example.saved).2)
    ∧ obj_get "theme" blob' = Some (JObj [("value", JStr "dark")])
    ∧ obj_get "login" blob' = obj_get "login" Example.saved_login.
Proof.
  pose proof (updateStorage_then_getFromStorage "theme" (toStore "theme" Example.theme)
                Example.persisting Example.saved Example.saved_storage
                Example.saved_login) as H.
  specialize (H ltac:(vm_compute; reflexivity) ltac:(vm_compute; reflexivity)
                ltac:(vm_compute; reflexivity) ltac:(vm_compute; reflexivity)).
  destruct H as (blob' & Hread & Hname & Hother).
  exists blob'. split; [exact Hread|]. split; [exact Hname|].
  exact (Hother "login" ltac:(discriminate)).
Defined.

(** X19 on the samples.  After [clear('login')] storage holds the theme, full snapshot and all,
    though it was never registered for persistence. *)
Lemma clear_stores_the_remaining_store_witness :
  (getFromStorage "ngFormsManager"
     (clear Example.config (Some (OneName "login")) Example.two_names).2).1
  = Normal (JObj [("theme", toStore "theme" Example.theme)]).
Proof.
  pose proof (clear_stores_the_remaining_store Example.config (Some (OneName "login"))
                Example.two_names ∅) as H.
  specialize (H ltac:(vm_compute; reflexivity) ltac:(vm_compute; reflexivity)).
  pose proof (f_equal fst H) as Hread.
  vm_compute in Hread. vm_compute. exact Hread.
Defined.

(** X20 on the samples.  With the saved login cleared, the blank form is stored as it is. *)
Lemma upsert_after_clear_starts_afresh_witness :
  getControl "login" None
    (upsert Example.config "login" 1 Example.persist
       (clear Example.config (Some (OneName "login")) Example.saved).2).2
  = Some (toStore "login" Example.login_blank).
Proof.
  pose proof (upsert_after_clear_starts_afresh Example.config "login" 1 Example.persist
                Example.saved Example.saved_storage) as H.
  specialize (H ltac:(vm_compute; reflexivity) ltac:(vm_compute; reflexivity)).
  destruct H as (_ & Hget & _).
  vm_compute in Hget. vm_compute. exact Hget.
Defined.

